(** * ironfish-cli [service:snapshot]: the snapshot export pipeline

    A shallow embedding of
    [ironfish-cli/src/commands/service/snapshot.ts] (class
    [CreateSnapshot]: [start], [zipDir], [uploadToBucket]) and the
    properties of its sequencing and failure discipline.

    The command is asynchronous TypeScript that talks to a file system, a
    clock, an RPC stream and two child processes ([tar], [curl]).  It is
    embedded as a state-and-failure monad over an explicit [State]; what
    the outside world answers is gathered in a [World] of oracles.  Every
    effect the command performs is appended to a trace, so that "no upload
    is attempted" or "the manifest is written after the archive upload"
    are statements about that trace. *)

From Stdlib Require Import ZArith Lia Ascii String DecimalString DecimalPos DecimalZ.
From stdpp Require Import base option list gmap strings.

Local Open Scope Z_scope.

(** ** Bytes and strings *)

Abbreviation bytes := (list Byte.byte).

(** [Buffer.from(s)] / what [writeFile] stores for a string. *)
Definition bytes_of_string (s : string) : bytes := String.list_byte_of_string s.

Definition chars (s : string) : list ascii := String.list_ascii_of_string s.
Definition unchars (l : list ascii) : string := String.string_of_list_ascii l.

(** Template-literal conversion [`${n}`] of an integer-valued number (the
    sequence numbers, sizes and epoch milliseconds of this program are
    integers below 10^21, which JavaScript prints in plain decimal). *)
Definition Number_toString (n : Z) : string := NilZero.string_of_int (Z.to_int n).

(** ** The [path] module (POSIX flavour) *)

Module path.

Definition sep : ascii := "/"%char.

Definition is_sep (c : ascii) : bool := bool_decide (c = sep).

(** Segments between separators; ["a//b"] has the three segments [a], empty, [b]. *)
Fixpoint split (l : list ascii) : list (list ascii) :=
  match l with
  | [] => [[]]
  | c :: l' =>
      if is_sep c then [] :: split l'
      else match split l' with
           | [] => [[c]]
           | seg :: segs => (c :: seg) :: segs
           end
  end.

(** [segs.join('/')] *)
Fixpoint unsplit (segs : list (list ascii)) : list ascii :=
  match segs with
  | [] => []
  | [seg] => seg
  | seg :: segs' => seg ++ sep :: unsplit segs'
  end.

Definition dot : list ascii := ["."%char].
Definition dotdot : list ascii := ["."%char; "."%char].

(** [normalizeString]: the stack of kept segments, most recent first. *)
Definition push_segment (allowAboveRoot : bool)
    (stack : list (list ascii)) (seg : list ascii) : list (list ascii) :=
  if bool_decide (seg = []) || bool_decide (seg = dot) then stack
  else if bool_decide (seg = dotdot) then
    match stack with
    | top :: rest =>
        if bool_decide (top = dotdot)
        then (if allowAboveRoot then dotdot :: stack else stack)
        else rest
    | [] => if allowAboveRoot then [dotdot] else []
    end
  else seg :: stack.

Definition normalizeString (l : list ascii) (allowAboveRoot : bool) : list ascii :=
  unsplit (rev (fold_left (push_segment allowAboveRoot) (split l) [])).

Definition isAbsolute (l : list ascii) : bool :=
  match l with c :: _ => is_sep c | [] => false end.

Definition trailingSeparator (l : list ascii) : bool :=
  match rev l with c :: _ => is_sep c | [] => false end.

Definition normalize_chars (l : list ascii) : list ascii :=
  match l with
  | [] => dot
  | _ =>
      let abs := isAbsolute l in
      let trail := trailingSeparator l in
      match normalizeString l (negb abs) with
      | [] => if abs then [sep] else if trail then dot ++ [sep] else dot
      | p =>
          let p' := if trail then p ++ [sep] else p in
          if abs then sep :: p' else p'
      end
  end.

Definition normalize (p : string) : string := unchars (normalize_chars (chars p)).

(** [path.join(a, b)]: the non-empty arguments joined by the separator,
    then normalised. *)
Definition join (a b : string) : string :=
  match a, b with
  | EmptyString, EmptyString => "."
  | EmptyString, _ => normalize b
  | _, EmptyString => normalize a
  | _, _ => normalize (a +:+ "/" +:+ b)
  end.

(** [path.basename(p)]: trailing separators are dropped and what follows
    the last remaining separator is returned; that is the last non-empty
    segment, or the empty string when there is none. *)
Definition basename_chars (l : list ascii) : list ascii :=
  default [] (last (filter (λ seg, seg ≠ []) (split l))).

Definition basename (p : string) : string := unchars (basename_chars (chars p)).

Fixpoint drop_while (f : ascii → bool) (l : list ascii) : list ascii :=
  match l with
  | c :: l' => if f c then drop_while f l' else l
  | [] => []
  end.

(** [path.dirname(p)]: the scan runs from the last character down to
    index 1, skips trailing separators, and cuts at the first separator
    met after a non-separator. *)
Definition dirname_chars (l : list ascii) : list ascii :=
  match l with
  | [] => dot
  | c0 :: rest =>
      let hasRoot := is_sep c0 in
      match drop_while (λ c, negb (is_sep c)) (drop_while is_sep (rev rest)) with
      | [] => if hasRoot then [sep] else dot
      | _ :: before =>
          if hasRoot && bool_decide (before = []) then [sep; sep]
          else c0 :: rev before
      end
  end.

Definition dirname (p : string) : string := unchars (dirname_chars (chars p)).

(** A plain file name: not empty, not [.] or [..], without separator. *)
Definition plain (name : string) : bool :=
  let l := chars name in
  negb (bool_decide (l = [])) && negb (bool_decide (l = dot))
  && negb (bool_decide (l = dotdot)) && forallb (λ c, negb (is_sep c)) l.

End path.

(** ** SHA-256 ([crypto.createHash('sha256')]) and hex encoding

    32-bit words are integers in [0, 2^32) with the wrap-around written
    out. *)

Module sha256.

Definition w32 (x : Z) : Z := x mod 2 ^ 32.
Definition add32 (x y : Z) : Z := w32 (x + y).
Definition rotr (n x : Z) : Z := Z.lor (Z.shiftr x n) (w32 (Z.shiftl x (32 - n))).
Definition not32 (x : Z) : Z := Z.lxor x (2 ^ 32 - 1).

Definition Ch (x y z : Z) : Z := Z.lxor (Z.land x y) (Z.land (not32 x) z).
Definition Maj (x y z : Z) : Z :=
  Z.lxor (Z.lxor (Z.land x y) (Z.land x z)) (Z.land y z).
Definition Sigma0 (x : Z) : Z := Z.lxor (Z.lxor (rotr 2 x) (rotr 13 x)) (rotr 22 x).
Definition Sigma1 (x : Z) : Z := Z.lxor (Z.lxor (rotr 6 x) (rotr 11 x)) (rotr 25 x).
Definition sigma0 (x : Z) : Z := Z.lxor (Z.lxor (rotr 7 x) (rotr 18 x)) (Z.shiftr x 3).
Definition sigma1 (x : Z) : Z := Z.lxor (Z.lxor (rotr 17 x) (rotr 19 x)) (Z.shiftr x 10).

(** The round constants: the first 32 bits of the fractional parts of
    the cube roots of the first 64 primes (see [K_cube_roots]). *)
Definition K : list Z :=
  [
     1116352408; 1899447441; 3049323471; 3921009573;
     961987163; 1508970993; 2453635748; 2870763221;
     3624381080; 310598401; 607225278; 1426881987;
     1925078388; 2162078206; 2614888103; 3248222580;
     3835390401; 4022224774; 264347078; 604807628;
     770255983; 1249150122; 1555081692; 1996064986;
     2554220882; 2821834349; 2952996808; 3210313671;
     3336571891; 3584528711; 113926993; 338241895;
     666307205; 773529912; 1294757372; 1396182291;
     1695183700; 1986661051; 2177026350; 2456956037;
     2730485921; 2820302411; 3259730800; 3345764771;
     3516065817; 3600352804; 4094571909; 275423344;
     430227734; 506948616; 659060556; 883997877;
     958139571; 1322822218; 1537002063; 1747873779;
     1955562222; 2024104815; 2227730452; 2361852424;
     2428436474; 2756734187; 3204031479; 3329325298
  ].

(** The initial hash value: the first 32 bits of the fractional parts of
    the square roots of the first 8 primes (see [H0_square_roots]). *)
Definition H0 : list Z :=
  [ 1779033703; 3144134277; 1013904242; 2773480762;
    1359893119; 2600822924; 528734635; 1541459225 ].

Definition primes64 : list Z :=
  [   2;   3;   5;   7;  11;  13;  17;  19;  23;  29;  31;  37;  41;  43;  47;  53;
     59;  61;  67;  71;  73;  79;  83;  89;  97; 101; 103; 107; 109; 113; 127; 131;
    137; 139; 149; 151; 157; 163; 167; 173; 179; 181; 191; 193; 197; 199; 211; 223;
    227; 229; 233; 239; 241; 251; 257; 263; 269; 271; 277; 281; 283; 293; 307; 311 ].

(** Integer cube root of a number below [2 ^ (3 * bits)], one bit at a
    time from the top. *)
Fixpoint cube_root (bits : nat) (acc n : Z) : Z :=
  match bits with
  | O => acc
  | S bits' =>
      let try := acc + 2 ^ Z.of_nat bits' in
      cube_root bits' (if try * try * try <=? n then try else acc) n
  end.

Definition Z_of_byte (b : Byte.byte) : Z := Z.of_N (Byte.to_N b).
Definition byte_of_Z (z : Z) : Byte.byte :=
  default Byte.x00 (Byte.of_N (Z.to_N (z mod 256))).

(** Big-endian bytes of the low [8 * n] bits of [z]. *)
Fixpoint be_bytes (n : nat) (z : Z) : list Z :=
  match n with
  | O => []
  | S n' => Z.shiftr z (8 * Z.of_nat n') mod 256 :: be_bytes n' z
  end.

(** Message padding: a one bit, zeros up to 56 mod 64, the bit length
    on 64 bits. *)
Definition pad (msg : list Z) : list Z :=
  let len := Z.of_nat (length msg) in
  let zeros := Z.to_nat ((55 - len) mod 64) in
  msg ++ 0x80 :: replicate zeros 0 ++ be_bytes 8 (8 * len).

Fixpoint words (fuel : nat) (l : list Z) : list Z :=
  match fuel, l with
  | S f, a :: b :: c :: d :: l' =>
      (Z.shiftl a 24 + Z.shiftl b 16 + Z.shiftl c 8 + d) :: words f l'
  | _, _ => []
  end.

(** Message schedule: [recent] holds the 16 latest words, newest first. *)
Fixpoint schedule (n : nat) (recent : list Z) : list Z :=
  match n with
  | O => []
  | S n' =>
      let w := add32 (add32 (sigma1 (recent !!! 1%nat)) (recent !!! 6%nat))
                     (add32 (sigma0 (recent !!! 14%nat)) (recent !!! 15%nat)) in
      w :: schedule n' (w :: take 15 recent)
  end.

Definition round (h : list Z) (kw : Z * Z) : list Z :=
  match h with
  | [a; b; c; d; e; f; g; hh] =>
      let t1 := add32 (add32 (add32 hh (Sigma1 e)) (add32 (Ch e f g) kw.1)) kw.2 in
      let t2 := add32 (Sigma0 a) (Maj a b c) in
      [add32 t1 t2; a; b; c; add32 d t1; e; f; g]
  | _ => h
  end.

Definition compress (h : list Z) (block : list Z) : list Z :=
  let w16 := words 16 block in
  let w := w16 ++ schedule 48 (rev w16) in
  zip_with add32 h (fold_left round (zip K w) h).

Fixpoint blocks (fuel : nat) (h : list Z) (l : list Z) : list Z :=
  match fuel with
  | O => h
  | S f =>
      match l with
      | [] => h
      | _ => blocks f (compress h (take 64 l)) (drop 64 l)
      end
  end.

Definition digest (msg : bytes) : bytes :=
  let p := pad (Z_of_byte <$> msg) in
  byte_of_Z <$> (blocks (length p) H0 p ≫= be_bytes 4).

End sha256.

(** [buf.toString('hex')] *)
Definition hex_digit (n : N) : ascii :=
  match n with
  | 0 => "0" | 1 => "1" | 2 => "2" | 3 => "3" | 4 => "4" | 5 => "5" | 6 => "6"
  | 7 => "7" | 8 => "8" | 9 => "9" | 10 => "a" | 11 => "b" | 12 => "c"
  | 13 => "d" | 14 => "e" | _ => "f"
  end%N%char.

Fixpoint hex_chars (b : bytes) : list ascii :=
  match b with
  | [] => []
  | x :: b' =>
      let n := Byte.to_N x in
      hex_digit (n / 16) :: hex_digit (n mod 16) :: hex_chars b'
  end.

Definition toString_hex (b : bytes) : string := unchars (hex_chars b).

(** ** JavaScript values used by the command *)

(** Truthiness, as tested by [if (x)], [x && y] and [x || y]. *)
Definition truthy_string (s : string) : bool := negb (bool_decide (s = EmptyString)).
Definition truthy_number (n : option Z) : bool :=
  match n with Some n => negb (n =? 0) | None => false end.
(** An object (here a [Buffer]) is truthy whenever it is present, also
    when it holds no byte. *)
Definition truthy_object {A} (o : option A) : bool :=
  match o with Some _ => true | None => false end.

(** [a || b] on an optional string and a string. *)
Definition or_string (a : option string) (b : string) : string :=
  match a with
  | Some s => if truthy_string s then s else b
  | None => b
  end.

(** [s.trim()], on the ASCII white space and line terminators. *)
Definition is_space (c : ascii) : bool :=
  let n := N_of_ascii c in
  ((9 <=? n) && (n <=? 13) || (n =? 32))%N.

Definition trim (s : string) : string :=
  unchars (rev (path.drop_while is_space (rev (path.drop_while is_space (chars s))))).

(** [new Date(t).toISOString()] for [t] milliseconds since the epoch:
    [YYYY-MM-DDTHH:mm:ss.sssZ], with the expanded six-digit signed year
    outside 0..9999. *)
Module Date.

Definition pad (width : nat) (n : Z) : string :=
  let d := Number_toString n in
  unchars (replicate (width - String.length d) "0"%char) +:+ d.

(** Proleptic Gregorian date of a day number counted from 1970-01-01. *)
Definition civil (days : Z) : Z * Z * Z :=
  let z := days + 719468 in
  let era := z / 146097 in
  let doe := z - era * 146097 in
  let yoe := (doe - doe / 1460 + doe / 36524 - doe / 146096) / 365 in
  let doy := doe - (365 * yoe + yoe / 4 - yoe / 100) in
  let mp := (5 * doy + 2) / 153 in
  let d := doy - (153 * mp + 2) / 5 + 1 in
  let m := if mp <? 10 then mp + 3 else mp - 9 in
  let y := yoe + era * 400 + (if m <=? 2 then 1 else 0) in
  (y, m, d).

Definition year_string (y : Z) : string :=
  if (0 <=? y) && (y <=? 9999) then pad 4 y
  else (if y <? 0 then "-" else "+") +:+ pad 6 (Z.abs y).

Definition toISOString (t : Z) : string :=
  let '(y, m, d) := civil (t / 86400000) in
  let ms := t mod 86400000 in
  year_string y +:+ "-" +:+ pad 2 m +:+ "-" +:+ pad 2 d +:+ "T" +:+
  pad 2 (ms / 3600000) +:+ ":" +:+ pad 2 (ms / 60000 mod 60) +:+ ":" +:+
  pad 2 (ms / 1000 mod 60) +:+ "." +:+ pad 3 (ms mod 1000) +:+ "Z".

End Date.

(** ** The outside world *)

(** Modelled from the spec: the type of a message of the snapshot stream
    ([SnapshotChainStreamResponse], declared in the SDK).  The first
    message carries the bounds; a data message carries an optional
    sequence number and an optional payload. *)
Record SnapshotChainStreamResponse := {
  r_start : Z;
  r_stop : Z;
  r_seq : option Z;
  r_buffer : option bytes;
}.

(** Events a child process emits, in order. *)
Inductive ChildEvent :=
  | OnExit (code : option Z)
  | OnClose (code : option Z)
  | OnError
  | OnMessage (m : string).

Abbreviation FS := (gmap string bytes).

Record World := {
  (** [sdk.fileSystem.resolve] *)
  fs_resolve : string → string;
  (** [fsAsync.mkdtemp(prefix)]: the directory created, or a failure *)
  fs_mkdtemp : option string;
  (** [sdk.fileSystem.mkdir(p, { recursive: true })] succeeds *)
  fs_mkdir : string → bool;
  (** [fsAsync.writeFile(p, _)] succeeds *)
  fs_writable : string → bool;
  (** chunk size of [fileHandle.createReadStream()] *)
  highWaterMark : positive;
  (** initial content of the file system *)
  fs_init : FS;
  (** [sdk.connectRpc()] succeeds *)
  rpc_connects : bool;
  (** the messages the node sends on the snapshot stream, and whether the
      stream ends with an error rather than a plain end *)
  rpc_messages : list SnapshotChainStreamResponse;
  rpc_breaks : bool;
  (** [process.env.IRONFISH_SNAPSHOT_BUCKET] *)
  env_IRONFISH_SNAPSHOT_BUCKET : option string;
  (** the clock, by number of earlier readings *)
  clock : nat → Z;
  (** a child process started with a command and arguments: the events
      it emits, in order, and what it does to the files *)
  child_events : string → list string → list ChildEvent;
  child_effect : string → list string → FS → FS;
}.

(** ** Effects *)

Inductive Event :=
  | Mkdir (p : string)
  | ConnectRpc
  | SnapshotChainStream (maxBlocksPerChunk : Z)
  | Receive (m : SnapshotChainStreamResponse)
  | ProgressStart (total value : Z)
  | ProgressUpdate (value : Z)
  | ProgressStop
  | DateNow (t : Z)
  | WriteFile (p : string) (data : bytes)
  | Spawn (cmd : string) (args : list string)
  | Stat (p : string)
  | Open (p : string)
  | Digest (hex : string).

Record State := {
  fs : FS;
  (** messages of the open response stream not yet consumed *)
  channel : list SnapshotChainStreamResponse;
  (** clock readings so far *)
  ticks : nat;
  (** effects so far, oldest first *)
  trace : list Event;
}.

Inductive Exn :=
  | ExitError (code : Z)
  | IteratorHasNoItems
  | RpcError
  | FsError (syscall path : string)
  | SpawnError.

(** A computation ends with a value, throws, or awaits a promise that is
    never settled. *)
Inductive Failure := Thrown (e : Exn) | Pending.

Inductive Result (A : Type) :=
  | Done (a : A)
  | Fail (f : Failure).
Arguments Done {A} a.
Arguments Fail {A} f.

(** The state is kept when a computation fails: nothing is rolled back. *)
Definition M (A : Type) : Type := State → Result A * State.

Definition ret {A} (a : A) : M A := λ s, (Done a, s).

Definition bind {A B} (m : M A) (k : A → M B) : M B :=
  λ s, match m s with
       | (Done a, s') => k a s'
       | (Fail f, s') => (Fail f, s')
       end.

Definition throw {A} (e : Exn) : M A := λ s, (Fail (Thrown e), s).

(** [try { m } catch (err) { h }] *)
Definition try_catch {A} (m : M A) (h : M A) : M A :=
  λ s, match m s with
       | (Fail (Thrown _), s') => h s'
       | r => r
       end.

Notation "x <- m ;; k" := (bind m (λ x, k))
  (at level 20, m at level 99, k at level 200, only parsing).
Notation "m ;; k" := (bind m (λ _, k))
  (at level 100, k at level 200, right associativity, only parsing).

Definition emit (e : Event) : M unit :=
  λ s, (Done tt, {| fs := fs s; channel := channel s; ticks := ticks s;
                    trace := trace s ++ [e] |}).

Definition get_fs : M FS := λ s, (Done (fs s), s).

Definition put_fs (f : FS) : M unit :=
  λ s, (Done tt, {| fs := f; channel := channel s; ticks := ticks s;
                    trace := trace s |}).

Definition put_channel (c : list SnapshotChainStreamResponse) : M unit :=
  λ s, (Done tt, {| fs := fs s; channel := c; ticks := ticks s;
                    trace := trace s |}).

Definition initial (w : World) : State :=
  {| fs := fs_init w; channel := []; ticks := 0; trace := [] |}.

Section Command.

Variable w : World.

(** *** Clock *)

Definition read_clock : M Z :=
  λ s, (Done (clock w (ticks s)),
        {| fs := fs s; channel := channel s; ticks := S (ticks s);
           trace := trace s |}).

(** [Date.now()] *)
Definition Date_now : M Z :=
  t <- read_clock ;; emit (DateNow t) ;; ret t.

(** [new Date().toISOString()] *)
Definition new_Date_toISOString : M string :=
  t <- read_clock ;; ret (Date.toISOString t).

(** *** Files *)

(** Modelled from the spec: [sdk.fileSystem.join] (SDK) joins path
    segments as [path.join] does, [blocksDir] being [workingDir/blocks]. *)
Definition fileSystem_join (a b : string) : string := path.join a b.

Definition mkdir (p : string) : M unit :=
  if fs_mkdir w p then emit (Mkdir p) else throw (FsError "mkdir" p).

Definition writeFile (p : string) (data : bytes) : M unit :=
  if fs_writable w p then
    f <- get_fs ;; put_fs (<[p := data]> f) ;; emit (WriteFile p data)
  else throw (FsError "open" p).

(** [(await fsAsync.stat(p)).size] *)
Definition stat_size (p : string) : M Z :=
  emit (Stat p) ;;
  f <- get_fs ;;
  match f !! p with
  | Some data => ret (Z.of_nat (length data))
  | None => throw (FsError "stat" p)
  end.

Fixpoint chunks_of (fuel : nat) (n : nat) (data : bytes) : list bytes :=
  match fuel, data with
  | S fuel', _ :: _ => take n data :: chunks_of fuel' n (drop n data)
  | _, _ => []
  end.

(** [(await fsAsync.open(p, 'r')).createReadStream()], as the list of
    chunks the stream yields. *)
Definition open_createReadStream (p : string) : M (list bytes) :=
  emit (Open p) ;;
  f <- get_fs ;;
  match f !! p with
  | Some data => ret (chunks_of (length data) (Pos.to_nat (highWaterMark w)) data)
  | None => throw (FsError "open" p)
  end.

(** *** Hashing *)

Record Hash := { hashed : bytes }.
Definition createHash_sha256 : Hash := {| hashed := [] |}.
Definition update (h : Hash) (data : bytes) : Hash := {| hashed := hashed h ++ data |}.
Definition digest (h : Hash) : bytes := sha256.digest (hashed h).

(** *** Child processes and promises *)

Inductive Settlement := Resolve (code : option Z) | Reject.

(** [new Promise((resolve, reject) => ...)] with listeners on a child
    process: the first listener that settles the promise wins. *)
Fixpoint settle (listener : ChildEvent → option Settlement)
    (events : list ChildEvent) : option Settlement :=
  match events with
  | [] => None
  | e :: events' =>
      match listener e with
      | Some r => Some r
      | None => settle listener events'
      end
  end.

Definition await (p : option Settlement) : M (option Z) :=
  match p with
  | Some (Resolve code) => ret code
  | Some Reject => throw SpawnError
  | None => λ s, (Fail Pending, s)
  end.

Definition spawn (cmd : string) (args : list string) : M (list ChildEvent) :=
  emit (Spawn cmd args) ;;
  f <- get_fs ;;
  put_fs (child_effect w cmd args f) ;;
  ret (child_events w cmd args).

(** [process.on('exit', resolve); process.on('close', resolve);
    process.on('error', reject)] *)
Definition zipDir_listener (e : ChildEvent) : option Settlement :=
  match e with
  | OnExit code => Some (Resolve code)
  | OnClose code => Some (Resolve code)
  | OnError => Some Reject
  | OnMessage _ => None
  end.

(** [process.on('message', log); process.on('exit', resolve);
    process.on('error', reject)] *)
Definition uploadToBucket_listener (e : ChildEvent) : option Settlement :=
  match e with
  | OnExit code => Some (Resolve code)
  | OnError => Some Reject
  | OnClose _ | OnMessage _ => None
  end.

Definition zipDir_args (source dest : string) (excludes : list string) : list string :=
  let sourceDir := path.dirname source in
  let sourceFile := path.basename source in
  let args := ["-zcf"; dest; "-C"; sourceDir; sourceFile] in
  fold_left (λ args exclude, "--exclude" :: exclude :: args) excludes args.

Definition uploadToBucket_args (dest host contentType date : string) : list string :=
  let file := path.basename dest in
  let acl := "bucket-owner-full-control" in
  [ "-X"; "PUT"; "-T"; dest;
    "-H"; "Host: " +:+ host;
    "-H"; "Date: " +:+ date;
    "-H"; "Content-Type: " +:+ contentType;
    "-H"; "x-amz-acl: " +:+ acl;
    "https://" +:+ host +:+ "/" +:+ file ].

Definition zipDir (source dest : string) (excludes : list string) : M (option Z) :=
  process <- spawn "tar" (zipDir_args source dest excludes) ;;
  await (settle zipDir_listener process).

Definition uploadToBucket (dest host contentType : string) : M (option Z) :=
  date <- new_Date_toISOString ;;
  process <- spawn "curl" (uploadToBucket_args dest host contentType date) ;;
  await (settle uploadToBucket_listener process).

(** *** The RPC stream *)

Definition connectRpc : M unit :=
  if rpc_connects w then emit ConnectRpc else throw RpcError.

(** [client.snapshotChainStream({ maxBlocksPerChunk })]: the request is
    sent and the response's stream starts to fill. *)
Definition snapshotChainStream (maxBlocksPerChunk : Z) : M unit :=
  emit (SnapshotChainStream maxBlocksPerChunk) ;;
  put_channel (rpc_messages w).

(** Modelled from the spec: [response.contentStream()] (SDK, not in
    this file's source) iterates over the response's one ordered
    channel: each call continues where the previous consumer stopped.
    [next] is one step of that iterator. *)
Definition next : M (option SnapshotChainStreamResponse) :=
  λ s, match channel s with
       | m :: rest => (put_channel rest ;; emit (Receive m) ;; ret (Some m)) s
       | [] => if rpc_breaks w then throw RpcError s else ret None s
       end.

(** Modelled from the spec: [AsyncUtils.first(iter)] (SDK) reads exactly
    one item and fails on an empty iterator. *)
Definition first : M SnapshotChainStreamResponse :=
  r <- next ;;
  match r with
  | Some m => ret m
  | None => throw IteratorHasNoItems
  end.

(** [for await (const result of response.contentStream()) body] *)
Fixpoint for_await_fuel (fuel : nat)
    (body : SnapshotChainStreamResponse → M unit) : M unit :=
  match fuel with
  | O => λ s, (Fail Pending, s)
  | S fuel' =>
      r <- next ;;
      match r with
      | Some result => body result ;; for_await_fuel fuel' body
      | None => ret tt
      end
  end.

Definition for_await (body : SnapshotChainStreamResponse → M unit) : M unit :=
  λ s, for_await_fuel (S (length (channel s))) body s.

(** *** The command *)

Record Flags := {
  flag_bucket : option string;
  flag_path : option string;
  flag_maxBlocksPerChunk : Z;
}.

Definition snapshotFileName_of (timestamp : Z) : string :=
  "ironfish_snapshot_" +:+ Number_toString timestamp +:+ ".tar.gz".

Record Manifest := {
  block_height : Z;
  checksum : string;
  file_name : string;
  file_size : Z;
  timestamp : Z;
}.

(** [JSON.stringify] of the manifest object (its strings hold hex
    digits and a file name made of letters, digits, [_] and [.], which
    need no escape). *)
Definition quoted (s : string) : string :=
  String (ascii_of_N 34) (s +:+ String (ascii_of_N 34) EmptyString).

Definition JSON_stringify (m : Manifest) : string :=
  "{" +:+ quoted "block_height" +:+ ":" +:+ Number_toString (block_height m) +:+
  "," +:+ quoted "checksum" +:+ ":" +:+ quoted (checksum m) +:+
  "," +:+ quoted "file_name" +:+ ":" +:+ quoted (file_name m) +:+
  "," +:+ quoted "file_size" +:+ ":" +:+ Number_toString (file_size m) +:+
  "," +:+ quoted "timestamp" +:+ ":" +:+ Number_toString (timestamp m) +:+ "}".

Definition mkdtemp : M string :=
  match fs_mkdtemp w with
  | Some dir => ret dir
  | None => throw (FsError "mkdtemp" EmptyString)
  end.

(** [this.exit(1)] *)
Definition exit {A} (code : Z) : M A := throw (ExitError code).

(** One turn of the download loop. *)
Definition write_block (blockExportPath : string)
    (result : SnapshotChainStreamResponse) : M unit :=
  if truthy_object (r_buffer result) && truthy_number (r_seq result) then
    let seq := default 0 (r_seq result) in
    let blockFilePath := fileSystem_join blockExportPath (Number_toString seq) in
    writeFile blockFilePath (default [] (r_buffer result)) ;;
    emit (ProgressUpdate seq)
  else ret tt.

(** [start], lines 63 to 141: the job once [bucket] and [exportDir] are
    known. *)
Definition start_from (flags : Flags) (bucket exportDir : string) : M unit :=
  let blockExportPath := fileSystem_join exportDir "blocks" in
  mkdir blockExportPath ;;
  connectRpc ;;
  snapshotChainStream (flag_maxBlocksPerChunk flags) ;;
  bounds <- first ;;
  let start := r_start bounds in
  let stop := r_stop bounds in
  emit (ProgressStart (stop - start + 1) 0) ;;
  for_await (write_block blockExportPath) ;;
  emit ProgressStop ;;
  timestamp <- Date_now ;;
  let snapshotFileName := snapshotFileName_of timestamp in
  let snapshotPath := fileSystem_join exportDir snapshotFileName in
  zipDir blockExportPath snapshotPath [] ;;
  fileSize <- stat_size snapshotPath ;;
  let hasher := createHash_sha256 in
  stream <- open_createReadStream snapshotPath ;;
  let hasher := fold_left update stream hasher in
  let checksum := toString_hex (digest hasher) in
  emit (Digest checksum) ;;
  if truthy_string bucket then
    let blockHeight := stop in
    uploadToBucket snapshotPath bucket "application/x-compressed-tar" ;;
    let manifestPath := path.join exportDir "manifest.json" in
    (* [writeFile(...).then(async () => { await uploadToBucket(...) })] *)
    writeFile manifestPath
      (bytes_of_string
         (JSON_stringify
            {| block_height := blockHeight;
               checksum := checksum;
               file_name := snapshotFileName;
               file_size := fileSize;
               timestamp := timestamp |})) ;;
    uploadToBucket manifestPath bucket "application/json" ;;
    ret tt
  else ret tt.

(** [start], lines 44 to 61, then the rest.  The status texts
    ([this.log], [CliUx.ux.action]) are left out. *)
Definition start (flags : Flags) : M unit :=
  let bucket :=
    trim (or_string (flag_bucket flags)
            (or_string (env_IRONFISH_SNAPSHOT_BUCKET w) EmptyString)) in
  exportDir <-
    (if truthy_string (default EmptyString (flag_path flags)) then
       ret (fs_resolve w (default EmptyString (flag_path flags)))
     else
       try_catch mkdtemp (exit 1)) ;;
  start_from flags bucket exportDir.

End Command.

(** [start] run from the initial state. *)
Definition run (w : World) (flags : Flags) : Result unit * State :=
  start w flags (initial w).

(** ** A sample world: the scenario of three blocks 10..12 *)

Definition block (seq : Z) (payload : string) : SnapshotChainStreamResponse :=
  {| r_start := 10; r_stop := 12; r_seq := Some seq;
     r_buffer := Some (bytes_of_string payload) |}.

Definition bounds_10_12 : SnapshotChainStreamResponse :=
  {| r_start := 10; r_stop := 12; r_seq := None; r_buffer := None |}.

(** What a child process emits when it runs and exits with [code], and
    when it cannot be started. *)
Definition exited (code : Z) : list ChildEvent :=
  [OnExit (Some code); OnClose (Some code)].
Definition not_started : list ChildEvent := [OnError; OnClose (Some (-2))].

Definition sample_events (tar curl : list ChildEvent)
    (cmd : string) (args : list string) : list ChildEvent :=
  if bool_decide (cmd = "tar") then tar else curl.

(** [tar] writes the archive named by its second argument. *)
Definition sample_effect (cmd : string) (args : list string) (f : FS) : FS :=
  if bool_decide (cmd = "tar") then
    <[default EmptyString (args !! 1%nat) := bytes_of_string "abc"]> f
  else f.

Definition sample_world (tar curl : list ChildEvent)
    (messages : list SnapshotChainStreamResponse) : World :=
  {| fs_resolve := λ p, p;
     fs_mkdtemp := Some "/tmp/snap";
     fs_mkdir := λ _, true;
     fs_writable := λ _, true;
     highWaterMark := 2;
     fs_init := ∅;
     rpc_connects := true;
     rpc_messages := messages;
     rpc_breaks := false;
     env_IRONFISH_SNAPSHOT_BUCKET := None;
     clock := λ n, 1667343600123 + Z.of_nat n;
     child_events := sample_events tar curl;
     child_effect := sample_effect |}.

Definition sample_flags (bucket : option string) : Flags :=
  {| flag_bucket := bucket; flag_path := None; flag_maxBlocksPerChunk := 1000 |}.

(** ** Closed forms used in the statements *)

Section Blocks.

Variable dir : string.

(** The guard of the download loop: [result.buffer && result.seq]. *)
Definition written (m : SnapshotChainStreamResponse) : bool :=
  truthy_object (r_buffer m) && truthy_number (r_seq m).

Definition block_seq (m : SnapshotChainStreamResponse) : Z := default 0 (r_seq m).

Definition block_path (m : SnapshotChainStreamResponse) : string :=
  path.join dir (Number_toString (block_seq m)).

Definition block_data (m : SnapshotChainStreamResponse) : bytes :=
  default [] (r_buffer m).

(** What one delivered message adds to the trace and to the files. *)
Definition block_events (m : SnapshotChainStreamResponse) : list Event :=
  Receive m ::
  (if written m
   then [WriteFile (block_path m) (block_data m); ProgressUpdate (block_seq m)]
   else []).

Definition block_store (f : FS) (m : SnapshotChainStreamResponse) : FS :=
  if written m then <[block_path m := block_data m]> f else f.

(** The last delivered record that is written to path [p], if any. *)
Definition last_written (p : string) (msgs : list SnapshotChainStreamResponse)
    : option SnapshotChainStreamResponse :=
  last (filter (λ m, written m = true ∧ block_path m = p) msgs).

End Blocks.

(** What the download loop guarantees when it runs over [msgs] from [s]
    and ends in [s'] with result [r]. *)
Definition loop_post (w : World) (dir : string) (s : State)
    (msgs : list SnapshotChainStreamResponse) (r : Result unit) (s' : State) : Prop :=
  ticks s' = ticks s
  ∧ r ≠ Fail Pending
  ∧ ∃ evs,
      trace s' = trace s ++ evs
      ∧ evs `prefix_of` (msgs ≫= block_events dir)
      ∧ (r = Done tt →
         rpc_breaks w = false
         ∧ Forall (λ m, written m = true → fs_writable w (block_path dir m) = true)
             msgs
         ∧ evs = msgs ≫= block_events dir
         ∧ fs s' = foldl (block_store dir) (fs s) msgs
         ∧ channel s' = [])
      ∧ (r ≠ Done tt →
         rpc_breaks w = true
         ∨ Exists (λ m, written m = true ∧ fs_writable w (block_path dir m) = false)
             msgs).

(** The values a run works with, as functions of the world and the
    flags. *)
Section Expected.

Variable w : World.
Variable flags : Flags.

Definition bucket_of : string :=
  trim (or_string (flag_bucket flags)
          (or_string (env_IRONFISH_SNAPSHOT_BUCKET w) EmptyString)).

Definition path_given : bool :=
  truthy_string (default EmptyString (flag_path flags)).

Definition exportDir_of : string :=
  if path_given then fs_resolve w (default EmptyString (flag_path flags))
  else default EmptyString (fs_mkdtemp w).

Definition blockExportPath_of : string := path.join exportDir_of "blocks".

(** The stream: the bounds message and the block records after it. *)
Definition start_of : Z := from_option r_start 0 (head (rpc_messages w)).
Definition stop_of : Z := from_option r_stop 0 (head (rpc_messages w)).
Definition records_of : list SnapshotChainStreamResponse := tail (rpc_messages w).

(** [Date.now()] is the first reading of the clock, the two uploads
    read it after that. *)
Definition timestamp_of : Z := clock w 0.
Definition snapshotPath_of : string :=
  path.join exportDir_of (snapshotFileName_of timestamp_of).
Definition manifestPath_of : string := path.join exportDir_of "manifest.json".

Definition tar_args : list string := zipDir_args blockExportPath_of snapshotPath_of [].

(** The files when the download loop has ended, and when [tar] has
    run on them. *)
Definition downloaded : FS :=
  foldl (block_store blockExportPath_of) (fs_init w) records_of.
Definition archived : FS := child_effect w "tar" tar_args downloaded.
Definition archive_of : bytes := default [] (archived !! snapshotPath_of).

Definition manifest_of : Manifest :=
  {| block_height := stop_of;
     checksum := toString_hex (sha256.digest archive_of);
     file_name := snapshotFileName_of timestamp_of;
     file_size := Z.of_nat (length archive_of);
     timestamp := timestamp_of |}.

Definition archive_upload_args : list string :=
  uploadToBucket_args snapshotPath_of bucket_of "application/x-compressed-tar"
    (Date.toISOString (clock w 1)).

Definition manifest_upload_args : list string :=
  uploadToBucket_args manifestPath_of bucket_of "application/json"
    (Date.toISOString (clock w 2)).

(** The files a successful run leaves. *)
Definition final_fs : FS :=
  if truthy_string bucket_of then
    child_effect w "curl" manifest_upload_args
      (<[manifestPath_of := bytes_of_string (JSON_stringify manifest_of)]>
         (child_effect w "curl" archive_upload_args archived))
  else archived.

(** How the promises of the three child processes are settled. *)
Definition tar_settled : option Settlement :=
  settle zipDir_listener (child_events w "tar" tar_args).
Definition archive_upload_settled : option Settlement :=
  settle uploadToBucket_listener (child_events w "curl" archive_upload_args).
Definition manifest_upload_settled : option Settlement :=
  settle uploadToBucket_listener (child_events w "curl" manifest_upload_args).

(** The trace of a run, stage by stage. *)
Definition T_prepared : list Event := [Mkdir blockExportPath_of].
Definition T_requested : list Event :=
  T_prepared ++ [ConnectRpc; SnapshotChainStream (flag_maxBlocksPerChunk flags)].
Definition T_bounded : list Event :=
  T_requested ++
  match head (rpc_messages w) with
  | Some bounds => [Receive bounds; ProgressStart (stop_of - start_of + 1) 0]
  | None => []
  end.
Definition T_blocks : list Event := records_of ≫= block_events blockExportPath_of.
Definition T_archiving : list Event :=
  T_bounded ++ T_blocks ++
  [ProgressStop; DateNow timestamp_of; Spawn "tar" tar_args].
Definition T_stat : list Event := T_archiving ++ [Stat snapshotPath_of].
Definition T_digested : list Event :=
  T_stat ++ [Open snapshotPath_of; Digest (checksum manifest_of)].
Definition T_uploading : list Event :=
  T_digested ++ [Spawn "curl" archive_upload_args].
Definition T_manifest : list Event :=
  T_uploading ++
  [WriteFile manifestPath_of (bytes_of_string (JSON_stringify manifest_of))].
Definition T_published : list Event :=
  T_manifest ++ [Spawn "curl" manifest_upload_args].

(** What the outside world must grant for the run to reach the archive
    step. *)
Definition dir_ready : Prop :=
  (path_given = true ∨ is_Some (fs_mkdtemp w))
  ∧ fs_mkdir w blockExportPath_of = true.

Definition stream_complete : Prop :=
  rpc_connects w = true
  ∧ rpc_messages w ≠ []
  ∧ rpc_breaks w = false
  ∧ Forall (λ m, written m = true →
                 fs_writable w (block_path blockExportPath_of m) = true)
      records_of.

(** The failure an unsettled or rejected promise raises at [await]. *)
Definition await_failure (p : option Settlement) : Failure :=
  match p with
  | Some Reject => Thrown SpawnError
  | _ => Pending
  end.

Definition resolved (p : option Settlement) : Prop := ∃ code, p = Some (Resolve code).

(** The runs of the command: result and trace, by the stage at which
    the run ends. *)
Inductive Run : Result unit → list Event → Prop :=
  | Run_no_dir :
      path_given = false → fs_mkdtemp w = None →
      Run (Fail (Thrown (ExitError 1))) []
  | Run_no_mkdir :
      path_given = true ∨ is_Some (fs_mkdtemp w) →
      fs_mkdir w blockExportPath_of = false →
      Run (Fail (Thrown (FsError "mkdir" blockExportPath_of))) []
  | Run_no_rpc :
      dir_ready → rpc_connects w = false →
      Run (Fail (Thrown RpcError)) T_prepared
  | Run_no_bounds :
      dir_ready → rpc_connects w = true → rpc_messages w = [] →
      Run (Fail (Thrown (if rpc_breaks w then RpcError else IteratorHasNoItems)))
        T_requested
  | Run_stream_failed e evs :
      dir_ready → rpc_connects w = true → rpc_messages w ≠ [] →
      rpc_breaks w = true
      ∨ Exists (λ m, written m = true
                     ∧ fs_writable w (block_path blockExportPath_of m) = false)
          records_of →
      evs `prefix_of` T_blocks →
      Run (Fail (Thrown e)) (T_bounded ++ evs)
  | Run_tar_failed :
      dir_ready → stream_complete → ¬ resolved tar_settled →
      Run (Fail (await_failure tar_settled)) T_archiving
  | Run_no_archive :
      dir_ready → stream_complete → resolved tar_settled →
      archived !! snapshotPath_of = None →
      Run (Fail (Thrown (FsError "stat" snapshotPath_of))) T_stat
  | Run_done_local :
      dir_ready → stream_complete → resolved tar_settled →
      is_Some (archived !! snapshotPath_of) →
      truthy_string bucket_of = false →
      Run (Done tt) T_digested
  | Run_upload_failed :
      dir_ready → stream_complete → resolved tar_settled →
      is_Some (archived !! snapshotPath_of) →
      truthy_string bucket_of = true →
      ¬ resolved archive_upload_settled →
      Run (Fail (await_failure archive_upload_settled)) T_uploading
  | Run_manifest_unwritable :
      dir_ready → stream_complete → resolved tar_settled →
      is_Some (archived !! snapshotPath_of) →
      truthy_string bucket_of = true →
      resolved archive_upload_settled →
      fs_writable w manifestPath_of = false →
      Run (Fail (Thrown (FsError "open" manifestPath_of))) T_uploading
  | Run_manifest_upload_failed :
      dir_ready → stream_complete → resolved tar_settled →
      is_Some (archived !! snapshotPath_of) →
      truthy_string bucket_of = true →
      resolved archive_upload_settled →
      fs_writable w manifestPath_of = true →
      ¬ resolved manifest_upload_settled →
      Run (Fail (await_failure manifest_upload_settled)) T_published
  | Run_done_published :
      dir_ready → stream_complete → resolved tar_settled →
      is_Some (archived !! snapshotPath_of) →
      truthy_string bucket_of = true →
      resolved archive_upload_settled →
      fs_writable w manifestPath_of = true →
      resolved manifest_upload_settled →
      Run (Done tt) T_published.

(** A run ends as [Run] says, and a successful one leaves the files
    of [final_fs]. *)
Definition Ends (rs : Result unit * State) : Prop :=
  Run rs.1 (trace rs.2)
  ∧ (rs.1 = Done tt → fs rs.2 = final_fs).

End Expected.

(** ** Reading a trace *)

(** The child processes started, the files written, the messages
    received, and so on, in order. *)
Definition spawns (tr : list Event) : list (string * list string) :=
  omap (λ e, match e with Spawn cmd args => Some (cmd, args) | _ => None end) tr.

Definition writes (tr : list Event) : list (string * bytes) :=
  omap (λ e, match e with WriteFile p data => Some (p, data) | _ => None end) tr.

Definition receives (tr : list Event) : list SnapshotChainStreamResponse :=
  omap (λ e, match e with Receive m => Some m | _ => None end) tr.

Definition requests (tr : list Event) : list Z :=
  omap (λ e, match e with SnapshotChainStream n => Some n | _ => None end) tr.

Definition digests (tr : list Event) : list string :=
  omap (λ e, match e with Digest hex => Some hex | _ => None end) tr.

Definition clock_reads (tr : list Event) : list Z :=
  omap (λ e, match e with DateNow t => Some t | _ => None end) tr.

Definition progress (tr : list Event) : list Z :=
  omap (λ e, match e with ProgressUpdate v => Some v | _ => None end) tr.

(** The file a written record goes to, with its content. *)
Definition block_file (dir : string) (m : SnapshotChainStreamResponse) : string * bytes :=
  (block_path dir m, block_data m).

(** ** The claims that fail, as they are worded *)

(** C1 as worded: a non-success exit code of the archive upload keeps
    the manifest from being written and uploaded, and fails the job. *)
Definition manifest_needs_successful_upload (w : World) (flags : Flags) : Prop :=
  ∀ r s code,
    run w flags = (r, s) →
    truthy_string (bucket_of w flags) = true →
    ("curl", archive_upload_args w flags) ∈ spawns (trace s) →
    archive_upload_settled w flags = Some (Resolve code) →
    code ≠ Some 0 →
    (∀ data, (manifestPath_of w flags, data) ∉ writes (trace s))
    ∧ (("curl", manifest_upload_args w flags) ∉ spawns (trace s))
    ∧ r ≠ Done tt.

(** C2 as worded: a non-success exit status of the compression process,
    or a failure to start it, fails the job before any digest or
    upload. *)
Definition failed_compression_fails_job (w : World) (flags : Flags) : Prop :=
  ∀ r s,
    run w flags = (r, s) →
    ("tar", tar_args w flags) ∈ spawns (trace s) →
    (tar_settled w flags = Some Reject
     ∨ ∃ code, tar_settled w flags = Some (Resolve code) ∧ code ≠ Some 0) →
    digests (trace s) = []
    ∧ (∀ args, ("curl", args) ∉ spawns (trace s))
    ∧ r ≠ Done tt.

(** C3 as worded: a stream that ends before a record with sequence
    [rangeEnd] was seen fails the job before the archive step. *)
Definition early_end_fails_job (w : World) (flags : Flags) : Prop :=
  ∀ r s,
    run w flags = (r, s) →
    rpc_messages w ≠ [] →
    (∀ m, m ∈ records_of w → r_seq m ≠ Some (stop_of w)) →
    (∀ args, ("tar", args) ∉ spawns (trace s)) ∧ r ≠ Done tt.

(** The records C4 and C5 word as written: a nonzero sequence number
    and a payload that is not empty. *)
Definition carries_payload_and_sequence (m : SnapshotChainStreamResponse) : bool :=
  match r_buffer m, r_seq m with
  | Some (_ :: _), Some n => negb (n =? 0)
  | _, _ => false
  end.

Definition within_bounds (s e : Z) (m : SnapshotChainStreamResponse) : bool :=
  match r_seq m with
  | Some n => (s <=? n) && (n <=? e)
  | None => false
  end.

(** C4 as worded: after a successful run the block files are exactly
    those of the delivered records within the bounds that carry a
    sequence and a non-empty payload. *)
Definition files_are_the_bounded_records (w : World) (flags : Flags) : Prop :=
  ∀ s p data,
    run w flags = (Done tt, s) →
    ((p, data) ∈ writes (trace s) ∧ p ≠ manifestPath_of w flags)
    ↔ ∃ m, m ∈ records_of w
           ∧ carries_payload_and_sequence m = true
           ∧ within_bounds (start_of w) (stop_of w) m = true
           ∧ (p, data) = block_file (blockExportPath_of w flags) m.

(** C5 as worded: the record is written if and only if it carries a
    sequence and a non-empty payload; otherwise nothing happens. *)
Definition written_iff_payload_and_sequence (w : World) (dir : string)
    (m : SnapshotChainStreamResponse) (s : State) : Prop :=
  if carries_payload_and_sequence m then
    (write_block w dir m s).1 = Done tt
    ∧ fs (write_block w dir m s).2 !! block_path dir m = Some (block_data m)
  else write_block w dir m s = (Done tt, s).

(** Sample runs. *)
Definition three_blocks : list SnapshotChainStreamResponse :=
  [bounds_10_12; block 10 "A"; block 11 "B"; block 12 "C"].

Definition with_bucket : Flags := sample_flags (Some "bucket.example").
Definition without_bucket : Flags := sample_flags None.

(** Everything goes well. *)
Definition fair_world : World := sample_world (exited 0) (exited 0) three_blocks.
(** [curl] exits with code 1. *)
Definition upload_exits_1 : World := sample_world (exited 0) (exited 1) three_blocks.
(** [tar] exits with code 2, having written an archive. *)
Definition tar_exits_2 : World := sample_world (exited 2) (exited 0) three_blocks.
(** The stream ends after block 10 of 10..12. *)
Definition short_stream : World :=
  sample_world (exited 0) (exited 0) [bounds_10_12; block 10 "A"].
(** A record beyond the bounds, and one with a payload of no bytes. *)
Definition empty_payload : SnapshotChainStreamResponse :=
  {| r_start := 10; r_stop := 12; r_seq := Some 11; r_buffer := Some [] |}.
Definition odd_stream : World :=
  sample_world (exited 0) (exited 0)
    [bounds_10_12; block 10 "A"; block 99 "Z"; empty_payload].
(** [tar] cannot be started. *)
Definition no_tar : World := sample_world not_started (exited 0) three_blocks.
(** The stream breaks after block 10. *)
Definition broken_stream : World :=
  {| fs_resolve := λ p, p;
     fs_mkdtemp := Some "/tmp/snap";
     fs_mkdir := λ _, true;
     fs_writable := λ _, true;
     highWaterMark := 2;
     fs_init := ∅;
     rpc_connects := true;
     rpc_messages := [bounds_10_12; block 10 "A"];
     rpc_breaks := true;
     env_IRONFISH_SNAPSHOT_BUCKET := None;
     clock := λ n, 1667343600123 + Z.of_nat n;
     child_events := sample_events (exited 0) (exited 0);
     child_effect := sample_effect |}.

(** A character of lowercase hexadecimal. *)
Definition is_lower_hex (c : ascii) : bool :=
  match c with
  | "0" | "1" | "2" | "3" | "4" | "5" | "6" | "7" | "8" | "9"
  | "a" | "b" | "c" | "d" | "e" | "f" => true
  | _ => false
  end%char.

(** A character of a number printed in decimal. *)
Definition numeric_char (c : ascii) : bool :=
  match c with
  | "0" | "1" | "2" | "3" | "4" | "5" | "6" | "7" | "8" | "9" | "-" => true
  | _ => false
  end%char.

(** ** Further worlds, and the arguments of the command *)

(** Events no listener of the command reacts to by settling a promise:
    [zipDir] ignores messages, [uploadToBucket] ignores messages and
    [close]. *)
Definition is_message (e : ChildEvent) : bool :=
  match e with OnMessage _ => true | _ => false end.

Definition is_message_or_close (e : ChildEvent) : bool :=
  match e with OnMessage _ | OnClose _ => true | _ => false end.

(** The listener [start] attaches to a child process, by command. *)
Definition listener_of (cmd : string) : ChildEvent → option Settlement :=
  if bool_decide (cmd = "tar") then zipDir_listener else uploadToBucket_listener.

(** The complete trace of a run, all stages done. *)
Definition T_complete (w : World) (flags : Flags) : list Event :=
  if truthy_string (bucket_of w flags) then T_published w flags
  else T_digested w flags.

(** No temporary directory can be made. *)
Definition no_tmp_dir : World :=
  {| fs_resolve := λ p, p;
     fs_mkdtemp := None;
     fs_mkdir := λ _, true;
     fs_writable := λ _, true;
     highWaterMark := 2;
     fs_init := ∅;
     rpc_connects := true;
     rpc_messages := three_blocks;
     rpc_breaks := false;
     env_IRONFISH_SNAPSHOT_BUCKET := None;
     clock := λ n, 1667343600123 + Z.of_nat n;
     child_events := sample_events (exited 0) (exited 0);
     child_effect := sample_effect |}.

(** [tar] exits with status 2 and leaves no archive; the bucket comes
    from the environment. *)
Definition tar_writes_nothing : World :=
  {| fs_resolve := λ p, p;
     fs_mkdtemp := Some "/tmp/snap";
     fs_mkdir := λ _, true;
     fs_writable := λ _, true;
     highWaterMark := 2;
     fs_init := ∅;
     rpc_connects := true;
     rpc_messages := three_blocks;
     rpc_breaks := false;
     env_IRONFISH_SNAPSHOT_BUCKET := Some "bucket.example";
     clock := λ n, 1667343600123 + Z.of_nat n;
     child_events := sample_events (exited 2) (exited 0);
     child_effect := λ _ _ f, f |}.

(** The file of block 11 cannot be written. *)
Definition read_only_block : World :=
  {| fs_resolve := λ p, p;
     fs_mkdtemp := Some "/tmp/snap";
     fs_mkdir := λ _, true;
     fs_writable := λ p, negb (bool_decide (p = "/tmp/snap/blocks/11"));
     highWaterMark := 2;
     fs_init := ∅;
     rpc_connects := true;
     rpc_messages := three_blocks;
     rpc_breaks := false;
     env_IRONFISH_SNAPSHOT_BUCKET := None;
     clock := λ n, 1667343600123 + Z.of_nat n;
     child_events := sample_events (exited 0) (exited 0);
     child_effect := sample_effect |}.

(** [curl] never exits: it only reports and closes its streams. *)
Definition curl_never_exits : World :=
  sample_world (exited 0) [OnMessage "sending"; OnClose (Some 0)] three_blocks.

(** The bucket variable of the environment holds white space only. *)
Definition blank_bucket : World :=
  {| fs_resolve := λ p, p;
     fs_mkdtemp := Some "/tmp/snap";
     fs_mkdir := λ _, true;
     fs_writable := λ _, true;
     highWaterMark := 2;
     fs_init := ∅;
     rpc_connects := true;
     rpc_messages := three_blocks;
     rpc_breaks := false;
     env_IRONFISH_SNAPSHOT_BUCKET := Some "  ";
     clock := λ n, 1667343600123 + Z.of_nat n;
     child_events := sample_events (exited 0) (exited 0);
     child_effect := sample_effect |}.

(** The manifest upload cannot be started, the archive upload goes
    well. *)
Definition manifest_upload_unstarted : World :=
  {| fs_resolve := λ p, p;
     fs_mkdtemp := Some "/tmp/snap";
     fs_mkdir := λ _, true;
     fs_writable := λ _, true;
     highWaterMark := 2;
     fs_init := ∅;
     rpc_connects := true;
     rpc_messages := three_blocks;
     rpc_breaks := false;
     env_IRONFISH_SNAPSHOT_BUCKET := None;
     clock := λ n, 1667343600123 + Z.of_nat n;
     child_events := λ cmd args,
       if bool_decide ("Content-Type: application/json" ∈ args)
       then not_started else exited 0;
     child_effect := sample_effect |}.

(** ** The flags, lines 20 to 42

    [--bucket] and [--path] are parsed by trimming the text given.  The
    default of [--maxBlocksPerChunk] is computed by JavaScript's [Number]
    from an environment variable and stays an input here. *)
Record Argv := {
  arg_bucket : option string;
  arg_path : option string;
  arg_maxBlocksPerChunk : Z
}.

Definition parse_bucket (input : string) : string := trim input.
Definition parse_path (input : string) : string := trim input.

(** [this.parse(CreateSnapshot)], line 45. *)
Definition parse (argv : Argv) : Flags :=
  {| flag_bucket := parse_bucket <$> arg_bucket argv;
     flag_path := parse_path <$> arg_path argv;
     flag_maxBlocksPerChunk := arg_maxBlocksPerChunk argv |}.

(** The command on the arguments as typed. *)
Definition command (w : World) (argv : Argv) : Result unit * State :=
  run w (parse argv).

Definition blank_arguments : Argv :=
  {| arg_bucket := Some " "; arg_path := Some "  "; arg_maxBlocksPerChunk := 1000 |}.

(** * Properties *)

(** ** Paths *)

Module path_facts.
Import path.

Lemma chars_unchars l : chars (unchars l) = l.
Proof. apply String.list_ascii_of_string_of_list_ascii. Qed.

Lemma unchars_chars s : unchars (chars s) = s.
Proof. apply String.string_of_list_ascii_of_string. Qed.

Lemma chars_app a b : chars (a +:+ b) = chars a ++ chars b.
Proof. induction a as [|c a IH]; simpl; [done|]. unfold chars in *. simpl. by rewrite IH. Qed.

Lemma split_nonnil l : split l ≠ [].
Proof.
  induction l as [|c l IH]; simpl; [done|].
  destruct (is_sep c); [done|]. by destruct (split l).
Qed.

Lemma split_nosep l : forallb (λ c, negb (is_sep c)) l = true → split l = [l].
Proof.
  induction l as [|c l IH]; simpl; [done|].
  intros [Hc Hl]%andb_prop. apply negb_true_iff in Hc. rewrite Hc.
  by rewrite (IH Hl).
Qed.

Lemma split_app_sep a b : split (a ++ sep :: b) = split a ++ split b.
Proof.
  induction a as [|c a IH]; simpl.
  - done.
  - destruct (is_sep c); [by rewrite IH|].
    rewrite IH. pose proof (split_nonnil a). by destruct (split a).
Qed.

Lemma unsplit_snoc segs seg :
  unsplit (segs ++ [seg]) =
    match segs with [] => seg | _ => unsplit segs ++ sep :: seg end.
Proof.
  induction segs as [|x segs IH]; [done|].
  change (unsplit ((x :: segs) ++ [seg])) with (unsplit (x :: (segs ++ [seg]))).
  destruct segs as [|y segs]; [done|].
  change (unsplit (x :: (y :: segs) ++ [seg]))
    with (x ++ sep :: unsplit ((y :: segs) ++ [seg])).
  rewrite IH. simpl. by rewrite <- app_assoc.
Qed.

Section Plain.
Variable f : list ascii.
Hypothesis Hne : f ≠ [].
Hypothesis Hdot : f ≠ dot.
Hypothesis Hdotdot : f ≠ dotdot.
Hypothesis Hsep : forallb (λ c, negb (is_sep c)) f = true.

Lemma basename_chars_plain : basename_chars f = f.
Proof.
  unfold basename_chars. rewrite (split_nosep _ Hsep).
  rewrite (filter_cons_True _ f) by done. done.
Qed.

Lemma basename_chars_snoc pre : basename_chars (pre ++ sep :: f) = f.
Proof.
  unfold basename_chars.
  rewrite split_app_sep, (split_nosep _ Hsep), filter_app.
  rewrite (filter_cons_True _ f) by done.
  by rewrite filter_nil, last_snoc.
Qed.

Lemma push_plain b stack : push_segment b stack f = f :: stack.
Proof.
  unfold push_segment.
  rewrite !bool_decide_eq_false_2 by done. done.
Qed.

Lemma trailingSeparator_plain pre : trailingSeparator (pre ++ f) = false.
Proof.
  unfold trailingSeparator. rewrite rev_app_distr.
  destruct (rev f) as [|c r] eqn:E.
  - apply (f_equal (@rev _)) in E. rewrite rev_involutive in E. done.
  - simpl. assert (Hin : In c f) by (apply in_rev; rewrite E; by left).
    pose proof Hsep as Hall. rewrite forallb_forall in Hall.
    apply Hall in Hin. by apply negb_true_iff in Hin.
Qed.

Lemma isAbsolute_plain : isAbsolute f = false.
Proof.
  destruct f as [|c l]; [done|]. simpl in *.
  apply andb_prop in Hsep as [Hc _]. by apply negb_true_iff in Hc.
Qed.

Lemma normalizeString_snoc pre b :
  normalizeString (pre ++ sep :: f) b = f
  ∨ ∃ pre', normalizeString (pre ++ sep :: f) b = pre' ++ sep :: f.
Proof.
  unfold normalizeString.
  rewrite split_app_sep, (split_nosep _ Hsep), fold_left_app. simpl.
  rewrite push_plain. simpl. rewrite unsplit_snoc.
  destruct (rev _); eauto.
Qed.

Lemma normalize_chars_snoc pre :
  normalize_chars (pre ++ sep :: f) = f
  ∨ ∃ pre', normalize_chars (pre ++ sep :: f) = pre' ++ sep :: f.
Proof.
  unfold normalize_chars.
  assert (trailingSeparator (pre ++ sep :: f) = false) as ->.
  { rewrite (cons_middle sep), app_assoc. apply trailingSeparator_plain. }
  destruct (normalizeString_snoc pre (negb (isAbsolute (pre ++ sep :: f))))
    as [-> | [pre' ->]].
  - destruct (pre ++ sep :: f) eqn:El; [by destruct pre|]. rewrite <- El.
    destruct f as [|c f'] eqn:Ef; [done|]. rewrite <- Ef.
    destruct (isAbsolute _); [right; by exists [] | by left].
  - destruct (pre ++ sep :: f) eqn:El; [by destruct pre|]. rewrite <- El.
    destruct (pre' ++ sep :: f) eqn:E'; [by destruct pre'|]. rewrite <- E'.
    destruct (isAbsolute _); [right; by exists (sep :: pre') | right; by exists pre'].
Qed.

Lemma normalize_chars_plain : normalize_chars f = f.
Proof.
  unfold normalize_chars.
  rewrite isAbsolute_plain.
  pose proof (trailingSeparator_plain []) as Ht. simpl in Ht. rewrite Ht.
  unfold normalizeString. rewrite (split_nosep _ Hsep). simpl.
  rewrite push_plain. simpl. by destruct f.
Qed.

End Plain.

Lemma plain_inv name :
  plain name = true →
  chars name ≠ [] ∧ chars name ≠ dot ∧ chars name ≠ dotdot
  ∧ forallb (λ c, negb (is_sep c)) (chars name) = true.
Proof.
  unfold plain. intros H.
  repeat (apply andb_prop in H as [H ?]).
  repeat match goal with
         | H : negb (bool_decide _) = true |- _ =>
             apply negb_true_iff, bool_decide_eq_false in H
         end.
  done.
Qed.

(** The base name of a plain name joined to any directory is that
    name. *)
Lemma basename_join dir name :
  plain name = true → basename (join dir name) = name.
Proof.
  intros (Hne & Hdot & Hdd & Hsep)%plain_inv.
  assert (Hn : ∃ c n, name = String c n).
  { destruct name; [done | eauto]. }
  destruct Hn as (c & n & Hn).
  unfold join, basename.
  destruct dir as [|d dir'].
  - rewrite Hn, <- Hn. unfold normalize. rewrite chars_unchars.
    rewrite normalize_chars_plain, basename_chars_plain by done.
    apply unchars_chars.
  - rewrite Hn, <- Hn. unfold normalize. rewrite chars_unchars.
    rewrite !chars_app. change (chars "/") with [sep].
    change ([sep] ++ chars name) with (sep :: chars name).
    destruct (normalize_chars_snoc (chars name) Hne Hdot Hdd Hsep
                (chars (String d dir'))) as [-> | [pre' ->]].
    + rewrite basename_chars_plain by done. apply unchars_chars.
    + rewrite basename_chars_snoc by done. apply unchars_chars.
Qed.

(** *** Names used by the command *)

Lemma numeric_uint d :
  forallb numeric_char (chars (NilEmpty.string_of_uint d)) = true.
Proof. induction d; simpl; done. Qed.

Lemma numeric_Number_toString n :
  forallb numeric_char (chars (Number_toString n)) = true.
Proof.
  unfold Number_toString.
  destruct (Z.to_int n) as [d|d]; simpl.
  - destruct d; try done; apply (numeric_uint (_ d)).
  - destruct d; try done; apply (numeric_uint (_ d)).
Qed.

Lemma Number_toString_nonempty n : chars (Number_toString n) ≠ [].
Proof.
  unfold Number_toString.
  destruct (Z.to_int n) as [d|d]; simpl; [|done].
  by destruct d.
Qed.

Lemma numeric_not_sep l :
  forallb numeric_char l = true → forallb (λ c, negb (is_sep c)) l = true.
Proof.
  rewrite !forallb_forall. intros H c Hc. specialize (H c Hc).
  destruct (is_sep c) eqn:E; [|done].
  apply bool_decide_eq_true in E. by subst c.
Qed.

Lemma plain_Number_toString n : plain (Number_toString n) = true.
Proof.
  pose proof (numeric_Number_toString n) as Hnum.
  pose proof (Number_toString_nonempty n) as Hne.
  unfold plain.
  rewrite (numeric_not_sep _ Hnum).
  rewrite !bool_decide_eq_false_2; [done| | |done].
  - intros E. by rewrite E in Hnum.
  - intros E. by rewrite E in Hnum.
Qed.

Lemma plain_snapshotFileName t : plain (snapshotFileName_of t) = true.
Proof.
  unfold plain, snapshotFileName_of. rewrite !chars_app.
  rewrite !forallb_app, (numeric_not_sep _ (numeric_Number_toString t)).
  done.
Qed.

Lemma Number_toString_not_manifest n : Number_toString n ≠ "manifest.json".
Proof.
  intros E. pose proof (numeric_Number_toString n) as H. by rewrite E in H.
Qed.

(** A block file never has the path of the manifest. *)
Lemma block_path_not_manifest dir dir' n :
  join dir (Number_toString n) ≠ join dir' "manifest.json".
Proof.
  intros E. apply (f_equal basename) in E.
  rewrite !basename_join in E by (done || apply plain_Number_toString).
  by apply Number_toString_not_manifest in E.
Qed.

End path_facts.

(** ** The download loop *)

(** Unfolding of the monad's operations on an explicit state. *)
Ltac msimpl :=
  cbv [bind ret throw emit get_fs put_fs put_channel read_clock Date_now
       new_Date_toISOString mkdir writeFile stat_size open_createReadStream
       await spawn zipDir uploadToBucket connectRpc snapshotChainStream
       next first exit mkdtemp try_catch initial run fileSystem_join];
  cbn [fs channel ticks trace fst snd].

Ltac msimpl_in H :=
  cbv [bind ret throw emit get_fs put_fs put_channel read_clock Date_now
       new_Date_toISOString mkdir writeFile stat_size open_createReadStream
       await spawn zipDir uploadToBucket connectRpc snapshotChainStream
       next first exit mkdtemp try_catch initial run fileSystem_join] in H;
  cbn [fs channel ticks trace fst snd] in H.

Section Loop.

Variable w : World.
Variable dir : string.

Lemma write_block_eq m s :
  write_block w dir m s =
    if written m then
      if fs_writable w (block_path dir m) then
        (Done tt,
         {| fs := <[block_path dir m := block_data m]> (fs s);
            channel := channel s; ticks := ticks s;
            trace := trace s ++ [WriteFile (block_path dir m) (block_data m);
                                 ProgressUpdate (block_seq m)] |})
      else (Fail (Thrown (FsError "open" (block_path dir m))), s)
    else (Done tt, s).
Proof.
  unfold write_block, written, writeFile, block_path, block_data, block_seq.
  destruct (truthy_object _ && truthy_number _); [|done].
  destruct (fs_writable w _); [|done].
  msimpl. by rewrite <- app_assoc.
Qed.

Lemma for_await_fuel_inv fuel s r s' :
  (length (channel s) < fuel)%nat →
  for_await_fuel w fuel (write_block w dir) s = (r, s') →
  loop_post w dir s (channel s) r s'.
Proof.
  revert s. induction fuel as [|fuel IH]; intros s Hlen; [lia|].
  simpl. unfold bind at 1, next.
  destruct (channel s) as [|m rest] eqn:Ech.
  - destruct (rpc_breaks w) eqn:Ebr; msimpl; intros [= <- <-].
    + split; [done|]. split; [done|]. exists []. rewrite app_nil_r.
      split; [done|]. split; [done|]. split; [done|]. by left.
    + split; [done|]. split; [done|]. exists []. rewrite app_nil_r.
      split; [done|]. split; [done|]. done.
  - msimpl. rewrite write_block_eq. cbn [fs channel ticks trace].
    assert (Hfold : ∀ f, foldl (block_store dir) f (channel s)
              = foldl (block_store dir) (block_store dir f m) rest).
    { intros f. by rewrite Ech. }
    assert (Hnext : ∀ s1,
      fs s1 = block_store dir (fs s) m → channel s1 = rest →
      ticks s1 = ticks s → trace s1 = trace s ++ block_events dir m →
      for_await_fuel w fuel (write_block w dir) s1 = (r, s') →
      loop_post w dir s (m :: rest) r s'
      ∨ written m = true ∧ fs_writable w (block_path dir m) = false).
    { intros s1 Hfs Hch Htk Htr Hrun.
      destruct (written m) eqn:Ewr, (fs_writable w (block_path dir m)) eqn:Ewt;
        [left|right; done|left|left].
      all: apply IH in Hrun; [|rewrite Hch; simpl in Hlen; lia].
      all: destruct Hrun as (Ht & Hp & evs & Htr' & Hpre & Hdone & Hfail).
      all: split; [congruence|]; split; [done|].
      all: exists (block_events dir m ++ evs).
      all: split; [rewrite Htr', Htr, <- app_assoc; done|].
      all: rewrite Hch in Hpre, Hdone, Hfail.
      all: split; [by apply prefix_app|].
      all: split; [|intros Hr; destruct (Hfail Hr) as [?|?];
                    [by left|right; by apply Exists_cons_tl]].
      all: intros Hr; destruct (Hdone Hr) as (? & ? & -> & Hfs' & ?).
      all: split; [done|]; split; [constructor; [congruence|done]|].
      all: split; [done|]; split; [|done].
      all: by rewrite Hfs', Hfs. }
    destruct (written m) eqn:Ewr.
    + destruct (fs_writable w (block_path dir m)) eqn:Ewt.
      * intros Hrun. apply Hnext in Hrun as [Hrun | [_ [=]]]; try done.
        -- cbn [fs]. unfold block_store. by rewrite Ewr.
        -- cbn [trace]. unfold block_events. rewrite Ewr. by rewrite <- app_assoc.
      * intros [= <- <-]. cbn [fs channel ticks trace].
        split; [done|]. split; [done|].
        exists [Receive m]. split; [done|].
        split; [|split; [done|intros _; right; by apply Exists_cons_hd]].
        rewrite bind_cons. unfold block_events at 1. rewrite Ewr.
        simpl. by apply prefix_cons, prefix_nil.
    + intros Hrun. apply Hnext in Hrun as [Hrun | [[=] _]]; try done.
      * cbn [fs]. unfold block_store. by rewrite Ewr.
      * cbn [trace]. unfold block_events. by rewrite Ewr.
Qed.

Lemma for_await_inv s r s' :
  for_await w (write_block w dir) s = (r, s') →
  loop_post w dir s (channel s) r s'.
Proof. apply for_await_fuel_inv. lia. Qed.

(** The loop ends normally exactly when the stream ends plainly and
    every write succeeds; it then has consumed the whole channel. *)
Lemma for_await_done s :
  rpc_breaks w = false →
  Forall (λ m, written m = true → fs_writable w (block_path dir m) = true)
    (channel s) →
  for_await w (write_block w dir) s =
    (Done tt,
     {| fs := foldl (block_store dir) (fs s) (channel s);
        channel := [];
        ticks := ticks s;
        trace := trace s ++ (channel s ≫= block_events dir) |}).
Proof.
  intros Hbr Hall.
  destruct (for_await w (write_block w dir) s) as [r s'] eqn:E.
  destruct (for_await_inv _ _ _ E) as (Ht & Hp & evs & Htr & _ & Hdone & Hfail).
  destruct r as [[]|f].
  - destruct (Hdone eq_refl) as (_ & _ & -> & Hfs & Hch).
    destruct s'; simpl in *; congruence.
  - destruct Hfail as [?|Hex]; [done|congruence|].
    apply Exists_exists in Hex as (m & Hm & Hw & Hnw).
    rewrite Forall_forall in Hall. rewrite (Hall m Hm Hw) in Hnw. done.
Qed.

End Loop.

(** ** Reading and hashing the archive *)

Lemma chunks_of_concat fuel n data :
  (length data ≤ fuel)%nat → (0 < n)%nat → concat (chunks_of fuel n data) = data.
Proof.
  revert data. induction fuel as [|fuel IH]; intros data Hlen Hn.
  - destruct data; [done|simpl in Hlen; lia].
  - destruct data as [|b data]; [done|].
    cbn [chunks_of concat]. rewrite IH; [apply take_drop| |done].
    rewrite length_drop. simpl in *. lia.
Qed.

Lemma hashed_fold_update chunks h :
  hashed (fold_left update chunks h) = hashed h ++ concat chunks.
Proof.
  revert h. induction chunks as [|c chunks IH]; intros h; simpl.
  - by rewrite app_nil_r.
  - rewrite IH. simpl. by rewrite app_assoc.
Qed.

(** Hashing the chunks of a read stream is hashing the file. *)
Lemma digest_stream n data :
  digest (fold_left update (chunks_of (length data) (Pos.to_nat n) data) createHash_sha256)
  = sha256.digest data.
Proof.
  unfold digest. rewrite hashed_fold_update, chunks_of_concat; [done|done|lia].
Qed.

(** ** Every run is one of the runs of [Run] *)

Ltac trace_eq Harchiving Hbounded :=
  unfold T_published, T_manifest, T_uploading, T_digested, T_stat;
  rewrite Harchiving, Hbounded; unfold T_blocks;
  cbn [app]; rewrite <- ?app_assoc; cbn [app]; reflexivity.

Section Sound.

Variable w : World.
Variable flags : Flags.

Lemma Ends_intro r s t :
  Run w flags r t → t = trace s →
  (r = Done tt → fs s = final_fs w flags) →
  Ends w flags (r, s).
Proof. intros ? -> ?. by split. Qed.

Lemma exportDir_given :
  truthy_string (default EmptyString (flag_path flags)) = true →
  fs_resolve w (default EmptyString (flag_path flags)) = exportDir_of w flags.
Proof. unfold exportDir_of, path_given. by intros ->. Qed.

Lemma exportDir_temp d :
  truthy_string (default EmptyString (flag_path flags)) = false →
  fs_mkdtemp w = Some d → d = exportDir_of w flags.
Proof. unfold exportDir_of, path_given. by intros -> ->. Qed.

Lemma run_sound' : Ends w flags (run w flags).
Proof.
  unfold run, start. msimpl.
  assert (Hrest :
    path_given flags = true ∨ is_Some (fs_mkdtemp w) →
    Ends w flags
      (start_from w flags (bucket_of w flags) (exportDir_of w flags) (initial w))).
  2: { destruct (truthy_string (default EmptyString (flag_path flags))) eqn:Ep;
         [|destruct (fs_mkdtemp w) as [d|] eqn:Emk].
       - rewrite (exportDir_given Ep). apply Hrest. by left.
       - msimpl. rewrite (exportDir_temp d Ep Emk). apply Hrest. by right.
       - msimpl. by apply (Ends_intro _ _ _ (Run_no_dir w flags Ep Emk)). }
  intros Hdir. unfold start_from. msimpl.
  change (path.join (exportDir_of w flags) "blocks") with (blockExportPath_of w flags).
  msimpl.
  destruct (fs_mkdir w (blockExportPath_of w flags)) eqn:Emkdir; msimpl;
    [|by apply (Ends_intro _ _ _ (Run_no_mkdir w flags Hdir Emkdir))].
  assert (Hready : dir_ready w flags) by done.
  destruct (rpc_connects w) eqn:Erpc; msimpl;
    [|by apply (Ends_intro _ _ _ (Run_no_rpc w flags Hready Erpc))].
  destruct (rpc_messages w) as [|bounds msgs] eqn:Emsgs; msimpl.
  { pose proof (Run_no_bounds w flags Hready Erpc Emsgs) as R.
    destruct (rpc_breaks w); msimpl; by apply (Ends_intro _ _ _ R). }
  assert (Hne : rpc_messages w ≠ []) by (by rewrite Emsgs).
  assert (Hrec : records_of w = msgs) by (unfold records_of; by rewrite Emsgs).
  subst msgs.
  assert (Hstop : r_stop bounds = stop_of w)
    by (unfold stop_of; by rewrite Emsgs).
  assert (Hstart : r_start bounds = start_of w)
    by (unfold start_of; by rewrite Emsgs).
  rewrite Hstop, Hstart. clear Hstop Hstart.
  assert (Hbounded : T_bounded w flags =
    [Mkdir (blockExportPath_of w flags); ConnectRpc;
     SnapshotChainStream (flag_maxBlocksPerChunk flags); Receive bounds;
     ProgressStart (stop_of w - start_of w + 1) 0]).
  { unfold T_bounded, T_requested, T_prepared. by rewrite Emsgs. }
  destruct (for_await w _ _) as [r3 s3] eqn:Eloop.
  apply for_await_inv in Eloop as (Ht & Hp & evs & Htr & Hpre & Hdone & Hfail).
  cbn [fs channel ticks trace] in Ht, Htr, Hpre, Hdone, Hfail.
  destruct r3 as [[]|f].
  2: { destruct f as [e|]; [|done]. msimpl.
       eapply Ends_intro; [eapply (Run_stream_failed w flags e evs); try done| |done].
       - by apply Hfail.
       - rewrite Htr, Hbounded. cbn [app]. by rewrite <- ?app_assoc. }
  destruct (Hdone eq_refl) as (Hbr & Hall & -> & Hfs & Hch).
  assert (Hstream : stream_complete w flags) by done.
  clear Hdone Hfail Hp Hpre.
  rewrite Ht, Hfs, Htr, ?Hch. clear Ht Hfs Htr Hch s3.
  change (clock w 0) with (timestamp_of w).
  change (path.join (exportDir_of w flags) (snapshotFileName_of (timestamp_of w)))
    with (snapshotPath_of w flags).
  change (zipDir_args (blockExportPath_of w flags) (snapshotPath_of w flags) [])
    with (tar_args w flags).
  change (settle zipDir_listener (child_events w "tar" (tar_args w flags)))
    with (tar_settled w flags).
  change (child_effect w "tar" (tar_args w flags) _) with (archived w flags).
  assert (Harchiving : T_archiving w flags =
    T_bounded w flags ++ T_blocks w flags ++
    [ProgressStop; DateNow (timestamp_of w); Spawn "tar" (tar_args w flags)])
    by done.
  destruct (tar_settled w flags) as [[code|]|] eqn:Etar; msimpl.
  2, 3: assert (Hno : ¬ resolved (tar_settled w flags))
    by (rewrite Etar; intros [? [=]]).
  2, 3: pose proof (Run_tar_failed w flags Hready Hstream Hno) as R;
    rewrite Etar in R; apply (Ends_intro _ _ _ R); [|done];
    rewrite Harchiving, Hbounded; unfold T_blocks; cbn [app];
    by rewrite <- ?app_assoc.
  assert (Htar : resolved (tar_settled w flags)) by (rewrite Etar; by eexists).
  clear Etar code.
  destruct (archived w flags !! snapshotPath_of w flags) as [data|] eqn:Earch;
    msimpl.
  2: { apply (Ends_intro _ _ _
                (Run_no_archive w flags Hready Hstream Htar Earch)); [|done].
       trace_eq Harchiving Hbounded. }
  rewrite Earch. msimpl.
  assert (Hsome : is_Some (archived w flags !! snapshotPath_of w flags))
    by (by rewrite Earch).
  assert (Hdata : archive_of w flags = data)
    by (unfold archive_of; by rewrite Earch).
  subst data. clear Earch.
  rewrite digest_stream.
  destruct (truthy_string (bucket_of w flags)) eqn:Ebucket; msimpl.
  2: { apply (Ends_intro _ _ _
                (Run_done_local w flags Hready Hstream Htar Hsome Ebucket)).
       - trace_eq Harchiving Hbounded.
       - intros _. unfold final_fs. by rewrite Ebucket. }
  change (uploadToBucket_args (snapshotPath_of w flags) (bucket_of w flags)
            "application/x-compressed-tar" (Date.toISOString (clock w 1)))
    with (archive_upload_args w flags).
  change (settle uploadToBucket_listener
            (child_events w "curl" (archive_upload_args w flags)))
    with (archive_upload_settled w flags).
  destruct (archive_upload_settled w flags) as [[code|]|] eqn:Eup; msimpl.
  2, 3: assert (Hno : ¬ resolved (archive_upload_settled w flags))
    by (rewrite Eup; intros [? [=]]).
  2, 3: pose proof (Run_upload_failed w flags Hready Hstream Htar Hsome
                      Ebucket Hno) as R;
    rewrite Eup in R; apply (Ends_intro _ _ _ R); [|done];
    trace_eq Harchiving Hbounded.
  assert (Hup : resolved (archive_upload_settled w flags))
    by (rewrite Eup; by eexists).
  clear Eup code.
  change (path.join (exportDir_of w flags) "manifest.json")
    with (manifestPath_of w flags).
  change (Build_Manifest _ _ _ _ _) with (manifest_of w flags).
  destruct (fs_writable w (manifestPath_of w flags)) eqn:Ewr; msimpl.
  2: { apply (Ends_intro _ _ _
                (Run_manifest_unwritable w flags Hready Hstream Htar Hsome
                   Ebucket Hup Ewr)); [|done].
       trace_eq Harchiving Hbounded. }
  change (uploadToBucket_args (manifestPath_of w flags) (bucket_of w flags)
            "application/json" (Date.toISOString (clock w 2)))
    with (manifest_upload_args w flags).
  change (settle uploadToBucket_listener
            (child_events w "curl" (manifest_upload_args w flags)))
    with (manifest_upload_settled w flags).
  destruct (manifest_upload_settled w flags) as [[code|]|] eqn:Emup; msimpl.
  2, 3: assert (Hno : ¬ resolved (manifest_upload_settled w flags))
    by (rewrite Emup; intros [? [=]]).
  2, 3: pose proof (Run_manifest_upload_failed w flags Hready Hstream Htar
                      Hsome Ebucket Hup Ewr Hno) as R;
    rewrite Emup in R; apply (Ends_intro _ _ _ R); [|done];
    trace_eq Harchiving Hbounded.
  assert (Hmup : resolved (manifest_upload_settled w flags))
    by (rewrite Emup; by eexists).
  apply (Ends_intro _ _ _
           (Run_done_published w flags Hready Hstream Htar Hsome Ebucket Hup
              Ewr Hmup)).
  - trace_eq Harchiving Hbounded.
  - intros _. unfold final_fs. by rewrite Ebucket.
Qed.

Lemma run_sound r s : run w flags = (r, s) → Run w flags r (trace s).
Proof. intros H. pose proof run_sound' as [R _]. by rewrite H in R. Qed.

Lemma run_final_fs s : run w flags = (Done tt, s) → fs s = final_fs w flags.
Proof. intros H. pose proof run_sound' as [_ R]. rewrite H in R. by apply R. Qed.

End Sound.

(** ** Traces of the stages *)

Section Stages.

Variable w : World.
Variable flags : Flags.

Lemma omap_prefix {A B} (f : A → option B) (l k : list A) :
  l `prefix_of` k → omap f l `prefix_of` omap f k.
Proof. intros [k' ->]. rewrite omap_app. by eexists. Qed.

Lemma spawns_app tr tr' : spawns (tr ++ tr') = spawns tr ++ spawns tr'.
Proof. apply omap_app. Qed.

Lemma writes_app tr tr' : writes (tr ++ tr') = writes tr ++ writes tr'.
Proof. apply omap_app. Qed.

Lemma receives_app tr tr' : receives (tr ++ tr') = receives tr ++ receives tr'.
Proof. apply omap_app. Qed.

Lemma requests_app tr tr' : requests (tr ++ tr') = requests tr ++ requests tr'.
Proof. apply omap_app. Qed.

Lemma digests_app tr tr' : digests (tr ++ tr') = digests tr ++ digests tr'.
Proof. apply omap_app. Qed.

Lemma clock_reads_app tr tr' : clock_reads (tr ++ tr') = clock_reads tr ++ clock_reads tr'.
Proof. apply omap_app. Qed.

Lemma progress_app tr tr' : progress (tr ++ tr') = progress tr ++ progress tr'.
Proof. apply omap_app. Qed.

Lemma spawns_blocks dir msgs : spawns (msgs ≫= block_events dir) = [].
Proof.
  induction msgs as [|m msgs IH]; [done|].
  rewrite bind_cons. unfold spawns in *. rewrite omap_app, IH.
  unfold block_events. by destruct (written m).
Qed.

Lemma digests_blocks dir msgs : digests (msgs ≫= block_events dir) = [].
Proof.
  induction msgs as [|m msgs IH]; [done|].
  rewrite bind_cons. unfold digests in *. rewrite omap_app, IH.
  unfold block_events. by destruct (written m).
Qed.

Lemma requests_blocks dir msgs : requests (msgs ≫= block_events dir) = [].
Proof.
  induction msgs as [|m msgs IH]; [done|].
  rewrite bind_cons. unfold requests in *. rewrite omap_app, IH.
  unfold block_events. by destruct (written m).
Qed.

Lemma clock_reads_blocks dir msgs : clock_reads (msgs ≫= block_events dir) = [].
Proof.
  induction msgs as [|m msgs IH]; [done|].
  rewrite bind_cons. unfold clock_reads in *. rewrite omap_app, IH.
  unfold block_events. by destruct (written m).
Qed.

Lemma receives_blocks dir msgs : receives (msgs ≫= block_events dir) = msgs.
Proof.
  induction msgs as [|m msgs IH]; [done|].
  rewrite bind_cons. unfold receives in *. rewrite omap_app, IH.
  unfold block_events. by destruct (written m).
Qed.

Lemma writes_blocks dir msgs :
  writes (msgs ≫= block_events dir) = block_file dir <$> filter (λ m, written m = true) msgs.
Proof.
  induction msgs as [|m msgs IH]; [done|].
  rewrite bind_cons. unfold writes in *. rewrite omap_app, IH.
  unfold block_events. rewrite filter_cons.
  destruct (written m) eqn:E.
  - rewrite decide_True by done. done.
  - rewrite decide_False by done. done.
Qed.

Lemma progress_blocks dir msgs :
  progress (msgs ≫= block_events dir) = block_seq <$> filter (λ m, written m = true) msgs.
Proof.
  induction msgs as [|m msgs IH]; [done|].
  rewrite bind_cons. unfold progress in *. rewrite omap_app, IH.
  unfold block_events. rewrite filter_cons.
  destruct (written m) eqn:E.
  - rewrite decide_True by done. done.
  - rewrite decide_False by done. done.
Qed.

(** No block file has the path of the manifest. *)
Lemma manifest_not_block dir dir' (data : bytes)
    (msgs : list SnapshotChainStreamResponse) :
  (path.join dir' "manifest.json", data) ∉ block_file dir <$> msgs.
Proof.
  intros (m & [= E _] & _)%list_elem_of_fmap.
  symmetry in E. by apply path_facts.block_path_not_manifest in E.
Qed.

Lemma spawns_T_bounded : spawns (T_bounded w flags) = [].
Proof. unfold T_bounded. by destruct (head (rpc_messages w)). Qed.

Lemma writes_T_bounded : writes (T_bounded w flags) = [].
Proof. unfold T_bounded. by destruct (head (rpc_messages w)). Qed.

Lemma digests_T_bounded : digests (T_bounded w flags) = [].
Proof. unfold T_bounded. by destruct (head (rpc_messages w)). Qed.

Lemma clock_reads_T_bounded : clock_reads (T_bounded w flags) = [].
Proof. unfold T_bounded. by destruct (head (rpc_messages w)). Qed.

Lemma requests_T_bounded :
  requests (T_bounded w flags) = [flag_maxBlocksPerChunk flags].
Proof. unfold T_bounded. by destruct (head (rpc_messages w)). Qed.

Lemma receives_T_bounded :
  receives (T_bounded w flags) = option_list (head (rpc_messages w)).
Proof. unfold T_bounded. by destruct (head (rpc_messages w)). Qed.

Lemma spawns_T_archiving :
  spawns (T_archiving w flags) = [("tar", tar_args w flags)].
Proof.
  unfold T_archiving, T_blocks.
  by rewrite !spawns_app, spawns_T_bounded, spawns_blocks.
Qed.

Lemma writes_T_archiving :
  writes (T_archiving w flags) =
    block_file (blockExportPath_of w flags)
      <$> filter (λ m, written m = true) (records_of w).
Proof.
  unfold T_archiving, T_blocks.
  rewrite !writes_app, writes_T_bounded, writes_blocks. cbn.
  by rewrite app_nil_r.
Qed.

Lemma digests_T_archiving : digests (T_archiving w flags) = [].
Proof.
  unfold T_archiving, T_blocks.
  by rewrite !digests_app, digests_T_bounded, digests_blocks.
Qed.

Lemma clock_reads_T_archiving :
  clock_reads (T_archiving w flags) = [timestamp_of w].
Proof.
  unfold T_archiving, T_blocks.
  by rewrite !clock_reads_app, clock_reads_T_bounded, clock_reads_blocks.
Qed.

Lemma requests_T_archiving :
  requests (T_archiving w flags) = [flag_maxBlocksPerChunk flags].
Proof.
  unfold T_archiving, T_blocks.
  by rewrite !requests_app, requests_T_bounded, requests_blocks.
Qed.

Lemma receives_T_archiving :
  rpc_messages w ≠ [] → receives (T_archiving w flags) = rpc_messages w.
Proof.
  intros Hne. unfold T_archiving, T_blocks.
  rewrite !receives_app, receives_T_bounded, receives_blocks.
  unfold records_of. destruct (rpc_messages w); [done|]. cbn.
  by rewrite app_nil_r.
Qed.

(** What a failed download leaves in the trace. *)
Lemma spawns_stream_failed evs :
  evs `prefix_of` T_blocks w flags → spawns (T_bounded w flags ++ evs) = [].
Proof.
  intros H%(omap_prefix (λ e, match e with
                              | Spawn cmd args => Some (cmd, args)
                              | _ => None
                              end)).
  fold (spawns evs) in H. fold (spawns (T_blocks w flags)) in H.
  unfold T_blocks in H. rewrite spawns_blocks in H.
  apply prefix_nil_inv in H.
  by rewrite spawns_app, spawns_T_bounded, H.
Qed.

Lemma digests_stream_failed evs :
  evs `prefix_of` T_blocks w flags → digests (T_bounded w flags ++ evs) = [].
Proof.
  intros H%(omap_prefix (λ e, match e with Digest hex => Some hex | _ => None end)).
  fold (digests evs) in H. fold (digests (T_blocks w flags)) in H.
  unfold T_blocks in H. rewrite digests_blocks in H.
  apply prefix_nil_inv in H.
  by rewrite digests_app, digests_T_bounded, H.
Qed.

Lemma writes_stream_failed evs :
  evs `prefix_of` T_blocks w flags →
  writes (T_bounded w flags ++ evs)
    `prefix_of` block_file (blockExportPath_of w flags)
                  <$> filter (λ m, written m = true) (records_of w).
Proof.
  intros H%(omap_prefix (λ e, match e with
                              | WriteFile p data => Some (p, data)
                              | _ => None
                              end)).
  fold (writes evs) in H. fold (writes (T_blocks w flags)) in H.
  unfold T_blocks in H. rewrite writes_blocks in H.
  by rewrite writes_app, writes_T_bounded.
Qed.

Lemma manifest_not_written_early evs dir (data : bytes) :
  evs `prefix_of` T_blocks w flags →
  (path.join dir "manifest.json", data) ∉ writes evs.
Proof.
  intros H%(omap_prefix (λ e, match e with
                              | WriteFile p data => Some (p, data)
                              | _ => None
                              end)).
  fold (writes evs) in H. fold (writes (T_blocks w flags)) in H.
  unfold T_blocks in H. rewrite writes_blocks in H.
  destruct H as [k E]. intros Hin.
  eapply manifest_not_block. rewrite E. apply elem_of_app. by left.
Qed.

Lemma receives_stream_failed evs :
  evs `prefix_of` T_blocks w flags →
  receives (T_bounded w flags ++ evs) `prefix_of` rpc_messages w.
Proof.
  intros H%(omap_prefix (λ e, match e with Receive m => Some m | _ => None end)).
  fold (receives evs) in H. fold (receives (T_blocks w flags)) in H.
  unfold T_blocks in H. rewrite receives_blocks in H.
  rewrite receives_app, receives_T_bounded.
  unfold records_of in H. destruct (rpc_messages w) as [|b msgs]; cbn in *.
  - by rewrite (prefix_nil_inv _ H).
  - by apply prefix_cons.
Qed.

Lemma requests_stream_failed evs :
  evs `prefix_of` T_blocks w flags →
  requests (T_bounded w flags ++ evs) = [flag_maxBlocksPerChunk flags].
Proof.
  intros H%(omap_prefix (λ e, match e with
                              | SnapshotChainStream n => Some n
                              | _ => None
                              end)).
  fold (requests evs) in H. fold (requests (T_blocks w flags)) in H.
  unfold T_blocks in H. rewrite requests_blocks in H.
  apply prefix_nil_inv in H.
  by rewrite requests_app, requests_T_bounded, H.
Qed.

Lemma ProgressStop_not_in_blocks dir msgs :
  ProgressStop ∉ msgs ≫= block_events dir.
Proof.
  induction msgs as [|m msgs IH]; [apply not_elem_of_nil|].
  rewrite bind_cons, elem_of_app. intros [Hin|Hin]; [|done].
  unfold block_events in Hin. destruct (written m).
  - repeat (apply elem_of_cons in Hin as [?|Hin]; [done|]).
    by apply not_elem_of_nil in Hin.
  - repeat (apply elem_of_cons in Hin as [?|Hin]; [done|]).
    by apply not_elem_of_nil in Hin.
Qed.

Lemma ProgressStop_not_in_stream_failed evs :
  evs `prefix_of` T_blocks w flags → ProgressStop ∉ T_bounded w flags ++ evs.
Proof.
  intros [k Hk] [Hin|Hin]%elem_of_app.
  - unfold T_bounded, T_requested, T_prepared in Hin.
    destruct (head (rpc_messages w)); cbn [app] in Hin.
    all: repeat (apply elem_of_cons in Hin as [?|Hin]; [done|]).
    all: by apply not_elem_of_nil in Hin.
  - apply (ProgressStop_not_in_blocks (blockExportPath_of w flags) (records_of w)).
    fold (T_blocks w flags). rewrite Hk. apply elem_of_app. by left.
Qed.

(** The trace up to the start of the archiver. *)
Lemma T_archiving_shape :
  rpc_messages w ≠ [] →
  ∃ bounds,
    rpc_messages w = bounds :: records_of w
    ∧ T_archiving w flags =
        [Mkdir (blockExportPath_of w flags); ConnectRpc;
         SnapshotChainStream (flag_maxBlocksPerChunk flags);
         Receive bounds;
         ProgressStart (r_stop bounds - r_start bounds + 1) 0]
        ++ (records_of w ≫= block_events (blockExportPath_of w flags))
        ++ [ProgressStop; DateNow (timestamp_of w);
            Spawn "tar" (tar_args w flags)].
Proof.
  intros Hne. unfold T_archiving, T_bounded, T_requested, T_prepared, T_blocks,
    start_of, stop_of, records_of.
  destruct (rpc_messages w) as [|bounds msgs]; [done|].
  by exists bounds.
Qed.

End Stages.

(** Rewriting a projection of the trace of a stage. *)
Ltac stages :=
  rewrite ?spawns_stream_failed, ?digests_stream_failed by assumption;
  unfold T_published, T_manifest, T_uploading, T_digested, T_stat;
  rewrite ?spawns_app, ?writes_app, ?digests_app, ?clock_reads_app,
    ?requests_app, ?receives_app;
  rewrite ?spawns_T_archiving, ?writes_T_archiving, ?digests_T_archiving,
    ?clock_reads_T_archiving, ?requests_T_archiving,
    ?writes_T_bounded;
  unfold T_requested, T_prepared;
  cbn [spawns writes digests clock_reads requests receives progress omap
       list_omap app option_list].

(** * The claims *)

(** Case analysis on the run behind a hypothesis [run w flags = (r, s)]. *)
Ltac run_cases H :=
  apply run_sound in H;
  match type of H with
  | Run _ _ _ (trace ?s) =>
      let tr := fresh "tr" in
      remember (trace s) as tr; clear dependent s; destruct H
  end.

Lemma upload_args_differ w flags :
  archive_upload_args w flags ≠ manifest_upload_args w flags.
Proof. unfold archive_upload_args, manifest_upload_args, uploadToBucket_args. by intros [=]. Qed.

Ltac in_trace := rewrite ?elem_of_app, ?elem_of_cons; intuition congruence.

(** Closing the cases of a statement about what a trace holds. *)
Ltac trace_crush :=
  repeat match goal with
    | H : _ ∈ [] |- _ => by apply not_elem_of_nil in H
    | H : _ ∈ _ ++ _ |- _ => apply elem_of_app in H as [H|H]
    | H : _ ∈ _ :: _ |- _ => apply elem_of_cons in H as [H|H]
    | H : (manifestPath_of _ _, _) ∈ block_file _ <$> _ |- _ =>
        by apply manifest_not_block in H
    | H : (manifestPath_of ?w ?flags, _) ∈ writes ?evs,
      Hp : ?evs `prefix_of` _ |- _ =>
        by apply (manifest_not_written_early w flags) in H
    | H : (?a, ?b) = (?a, ?b) |- _ => clear H
    | H : (?a, _) = (?a, _) |- _ => apply (f_equal snd) in H; cbn [snd] in H
    | H : (_, _) = (_, _) |- _ =>
        apply (f_equal fst) in H; cbn [fst] in H; discriminate
    | H : archive_upload_args _ _ = manifest_upload_args _ _ |- _ =>
        by apply upload_args_differ in H
    | H : manifest_upload_args _ _ = archive_upload_args _ _ |- _ =>
        symmetry in H; by apply upload_args_differ in H
    | H : ¬ ?P, H' : ?P |- _ => destruct (H H')
    end.

(** C9: without a bucket no upload is started and no manifest file is
    written, and the job succeeds as soon as the archive has been built
    and hashed. *)
Theorem no_bucket_no_publish w flags r s :
  run w flags = (r, s) →
  truthy_string (bucket_of w flags) = false →
  (∀ args, ("curl", args) ∉ spawns (trace s))
  ∧ (∀ data, (manifestPath_of w flags, data) ∉ writes (trace s))
  ∧ (digests (trace s) ≠ [] → r = Done tt).
Proof.
  intros H Hb. run_cases H; try congruence.
  all: split; [|split]; stages; intros.
  all: try done.
  all: try (by apply not_elem_of_nil).
  all: rewrite ?app_nil_r; try apply manifest_not_block.
  all: try (by intros [=]%list_elem_of_singleton).
  by apply (manifest_not_written_early w flags).
Qed.

Lemma no_bucket_no_publish_witness :
  run fair_world without_bucket
    = ((run fair_world without_bucket).1, (run fair_world without_bucket).2)
  ∧ truthy_string (bucket_of fair_world without_bucket) = false
  ∧ (∀ args, ("curl", args) ∉ spawns (trace (run fair_world without_bucket).2))
  ∧ (run fair_world without_bucket).1 = Done tt.
Proof.
  split; [apply surjective_pairing|]. split; [reflexivity|].
  destruct (no_bucket_no_publish fair_world without_bucket _ _
              (surjective_pairing _) eq_refl) as (Hcurl & _ & Hdone).
  split; [exact Hcurl|]. apply Hdone.
  assert (digests (trace (run fair_world without_bucket).2) =
            ["ba7816bf8f01cfea414140de5dae2223b00361a396177a9cb410ff61f20015ad"])
    as -> by (vm_compute; reflexivity).
  discriminate.
Defined.

(** C1, amended: with a bucket configured, the manifest is written and
    its upload started only once the promise of the archive upload is
    fulfilled, that is once the upload process has exited, whatever its
    exit code.  When that promise is rejected (the process could not be
    started) or never settled, the job fails with no manifest written and
    no manifest upload started.  When it is fulfilled, with a success code
    or not, the manifest is written and its upload started. *)
Theorem manifest_follows_archive_upload w flags r s :
  run w flags = (r, s) →
  truthy_string (bucket_of w flags) = true →
  (∀ data, (manifestPath_of w flags, data) ∈ writes (trace s) →
           resolved (archive_upload_settled w flags))
  ∧ (("curl", manifest_upload_args w flags) ∈ spawns (trace s) →
     resolved (archive_upload_settled w flags))
  ∧ (("curl", archive_upload_args w flags) ∈ spawns (trace s) →
     ¬ resolved (archive_upload_settled w flags) →
     r = Fail (await_failure (archive_upload_settled w flags)))
  ∧ (("curl", archive_upload_args w flags) ∈ spawns (trace s) →
     resolved (archive_upload_settled w flags) →
     fs_writable w (manifestPath_of w flags) = true →
     (manifestPath_of w flags, bytes_of_string (JSON_stringify (manifest_of w flags)))
       ∈ writes (trace s)
     ∧ ("curl", manifest_upload_args w flags) ∈ spawns (trace s)).
Proof.
  intros H Hb. run_cases H; try congruence.
  all: stages; (split; [|split; [|split]]); intros; trace_crush.
  all: try done; try congruence.
  all: rewrite ?elem_of_app, ?elem_of_cons; eauto 10.
Qed.

(** C1, counterexample: [curl] exits with code 1 on the archive upload,
    and the manifest is written and uploaded all the same, and the job
    succeeds. *)
Lemma manifest_written_after_failed_upload :
  ¬ manifest_needs_successful_upload upload_exits_1 with_bucket.
Proof.
  intros H.
  destruct (H _ _ (Some 1) (surjective_pairing _)) as (_ & _ & Hr).
  - reflexivity.
  - apply (bool_decide_unpack _). by vm_compute.
  - reflexivity.
  - discriminate.
  - apply Hr. by vm_compute.
Qed.

Lemma manifest_follows_archive_upload_witness :
  run upload_exits_1 with_bucket
    = ((run upload_exits_1 with_bucket).1, (run upload_exits_1 with_bucket).2)
  ∧ truthy_string (bucket_of upload_exits_1 with_bucket) = true
  ∧ (manifestPath_of upload_exits_1 with_bucket,
     bytes_of_string (JSON_stringify (manifest_of upload_exits_1 with_bucket)))
      ∈ writes (trace (run upload_exits_1 with_bucket).2).
Proof.
  split; [apply surjective_pairing|]. split; [reflexivity|].
  apply (manifest_follows_archive_upload upload_exits_1 with_bucket _ _
           (surjective_pairing _) eq_refl).
  - apply (bool_decide_unpack _). by vm_compute.
  - by exists (Some 1).
  - reflexivity.
Defined.

(** C2, amended: when the compression process cannot be started (its
    promise is rejected) or never exits, the job fails: no digest is
    computed and no upload is started.  Its exit status is not looked at:
    once it has exited, with a success status or not, the job goes on to
    measure the archive file and, when that file exists, to hash it. *)
Theorem unstarted_compression_fails_job w flags r s :
  run w flags = (r, s) →
  ("tar", tar_args w flags) ∈ spawns (trace s) →
  (¬ resolved (tar_settled w flags) →
   r = Fail (await_failure (tar_settled w flags))
   ∧ digests (trace s) = []
   ∧ ∀ args, ("curl", args) ∉ spawns (trace s))
  ∧ (resolved (tar_settled w flags) →
     Stat (snapshotPath_of w flags) ∈ trace s
     ∧ (is_Some (archived w flags !! snapshotPath_of w flags) →
        digests (trace s) = [toString_hex (sha256.digest (archive_of w flags))])).
Proof.
  intros H. run_cases H.
  all: stages; intros Hin; trace_crush.
  all: (split; [intros Hno; split; [|split]|intros Hyes; split; [|intros Hsome]]).
  all: trace_crush; try done.
  all: try (intros args Hc; by trace_crush).
  all: try (destruct Hsome as [? Hsome]; congruence).
  all: in_trace.
Qed.

(** C2, counterexample: [tar] exits with status 2 and the job still
    hashes the archive, uploads it and succeeds. *)
Lemma job_succeeds_after_failed_compression :
  ¬ failed_compression_fails_job tar_exits_2 with_bucket.
Proof.
  intros H.
  destruct (H _ _ (surjective_pairing _)) as (Hd & _ & _).
  - apply (bool_decide_unpack _). by vm_compute.
  - right. exists (Some 2). by split.
  - by vm_compute in Hd.
Qed.

Lemma unstarted_compression_fails_job_witness :
  run no_tar with_bucket = ((run no_tar with_bucket).1, (run no_tar with_bucket).2)
  ∧ ("tar", tar_args no_tar with_bucket) ∈ spawns (trace (run no_tar with_bucket).2)
  ∧ (run no_tar with_bucket).1 = Fail (Thrown SpawnError)
  ∧ digests (trace (run no_tar with_bucket).2) = [].
Proof.
  split; [apply surjective_pairing|].
  assert (Hin : ("tar", tar_args no_tar with_bucket)
                  ∈ spawns (trace (run no_tar with_bucket).2))
    by (apply (bool_decide_unpack _); by vm_compute).
  split; [exact Hin|].
  destruct (unstarted_compression_fails_job no_tar with_bucket _ _
              (surjective_pairing _) Hin) as [Hno _].
  destruct Hno as (Hr & Hd & _).
  - intros [code [=]].
  - split; [exact Hr|exact Hd].
Defined.

(** C3, amended: a stream that ends before a record with sequence
    [rangeEnd] was seen does not fail the job on that account.  When the
    stream ends plainly and the writes succeeded, the job goes on to the
    archive step with the records it received, whatever their sequence
    numbers; the job fails at once, without archiving, when the stream
    ends with an error. *)
Theorem end_of_stream_goes_on w flags r s :
  run w flags = (r, s) →
  dir_ready w flags →
  rpc_connects w = true →
  rpc_messages w ≠ [] →
  Forall (λ m, written m = true →
               fs_writable w (block_path (blockExportPath_of w flags) m) = true)
    (records_of w) →
  (rpc_breaks w = false → ("tar", tar_args w flags) ∈ spawns (trace s))
  ∧ (rpc_breaks w = true → (∃ e, r = Fail (Thrown e)) ∧ spawns (trace s) = []).
Proof.
  intros H [Hdir Hmkdir] Hrpc Hne Hall. run_cases H.
  all: try congruence.
  all: try match goal with
         | Hs : stream_complete _ _ |- _ => destruct Hs as (_ & _ & Hbr & _)
         end.
  all: stages; split; intros Hb; try congruence.
  all: try (in_trace).
  all: try (destruct Hdir as [?|[? ?]]; congruence).
  all: try (split; [by eexists|done]).
  match goal with
  | Hf : _ ∨ Exists _ _ |- _ => destruct Hf as [?|Hex]; [congruence|]
  end.
  apply Exists_exists in Hex as (m & Hm & Hw & Hn).
  rewrite Forall_forall in Hall. rewrite (Hall m Hm Hw) in Hn. done.
Qed.

(** C3, counterexample: the stream ends after block 10 of 10..12, and the
    job archives what it has and succeeds. *)
Lemma job_succeeds_on_short_stream : ¬ early_end_fails_job short_stream without_bucket.
Proof.
  intros H.
  destruct (H _ _ (surjective_pairing _)) as [_ Hr].
  - done.
  - intros m Hm. cbv [records_of short_stream sample_world rpc_messages tail] in Hm.
    apply list_elem_of_singleton in Hm as ->. by vm_compute.
  - apply Hr. by vm_compute.
Qed.

Lemma end_of_stream_goes_on_witness :
  run short_stream without_bucket
    = ((run short_stream without_bucket).1, (run short_stream without_bucket).2)
  ∧ rpc_breaks short_stream = false
  ∧ ("tar", tar_args short_stream without_bucket)
      ∈ spawns (trace (run short_stream without_bucket).2).
Proof.
  split; [apply surjective_pairing|]. split; [reflexivity|].
  apply (end_of_stream_goes_on short_stream without_bucket _ _ (surjective_pairing _)).
  - split; [right; by eexists|reflexivity].
  - reflexivity.
  - done.
  - by repeat constructor.
  - reflexivity.
Defined.

(** ** The download loop *)

Lemma written_iff m :
  written m = true
  ↔ ∃ payload n, r_buffer m = Some payload ∧ r_seq m = Some n ∧ n ≠ 0.
Proof.
  unfold written, truthy_object, truthy_number.
  destruct (r_buffer m) as [payload|], (r_seq m) as [n|]; simpl.
  - rewrite negb_true_iff, Z.eqb_neq. split.
    + intros Hn. by exists payload, n.
    + by intros (? & ? & [= <-] & [= <-] & ?).
  - split; [done|]. by intros (? & ? & _ & [=] & _).
  - split; [done|]. by intros (? & ? & [=] & _).
  - split; [done|]. by intros (? & ? & [=] & _).
Qed.

(** C5, amended: a delivered record is written to [dir/<sequence>], with
    its payload bytes, if and only if it carries a payload, be it of zero
    bytes, and a nonzero sequence number; progress is then set to that
    sequence number.  A record with no payload, or with no sequence number
    or sequence number 0, produces no file, raises no error and leaves the
    progress alone. *)
Theorem write_block_spec w dir m s :
  (∀ payload n,
     r_buffer m = Some payload → r_seq m = Some n → n ≠ 0 →
     write_block w dir m s =
       if fs_writable w (path.join dir (Number_toString n)) then
         (Done tt,
          {| fs := <[path.join dir (Number_toString n) := payload]> (fs s);
             channel := channel s;
             ticks := ticks s;
             trace := trace s ++ [WriteFile (path.join dir (Number_toString n)) payload;
                                  ProgressUpdate n] |})
       else (Fail (Thrown (FsError "open" (path.join dir (Number_toString n)))), s))
  ∧ (r_buffer m = None ∨ r_seq m = None ∨ r_seq m = Some 0 →
     write_block w dir m s = (Done tt, s)).
Proof.
  rewrite write_block_eq. split.
  - intros payload n Hb Hs Hn.
    assert (written m = true) as -> by (apply written_iff; eauto).
    unfold block_path, block_data, block_seq. by rewrite Hb, Hs.
  - intros Hno.
    destruct (written m) eqn:E; [|done].
    apply written_iff in E as (payload & n & Hb & Hs & Hn).
    destruct Hno as [?|[?|?]]; congruence.
Qed.

Lemma write_block_spec_witness :
  write_block fair_world "/tmp/snap/blocks" (block 10 "A") (initial fair_world) =
    (Done tt,
     {| fs := {["/tmp/snap/blocks/10" := bytes_of_string "A"]};
        channel := [];
        ticks := 0;
        trace := [WriteFile "/tmp/snap/blocks/10" (bytes_of_string "A");
                  ProgressUpdate 10] |})
  ∧ write_block fair_world "/tmp/snap/blocks" bounds_10_12 (initial fair_world) =
      (Done tt, initial fair_world).
Proof.
  destruct (write_block_spec fair_world "/tmp/snap/blocks" (block 10 "A")
              (initial fair_world)) as [Hyes _].
  destruct (write_block_spec fair_world "/tmp/snap/blocks" bounds_10_12
              (initial fair_world)) as [_ Hno].
  split.
  - rewrite (Hyes (bytes_of_string "A") 10); [|reflexivity|reflexivity|discriminate].
    vm_compute. reflexivity.
  - apply Hno. by left.
Defined.

(** C5, counterexample: a record with sequence 5 and a payload of zero
    bytes is written, as an empty file, and advances the progress. *)
Lemma empty_payload_is_written :
  ¬ written_iff_payload_and_sequence fair_world "/tmp/snap/blocks"
      {| r_start := 10; r_stop := 12; r_seq := Some 5; r_buffer := Some [] |}
      (initial fair_world).
Proof.
  unfold written_iff_payload_and_sequence. cbn [carries_payload_and_sequence r_buffer].
  intros H. apply (f_equal (λ rs, trace rs.2)) in H. by vm_compute in H.
Qed.

Lemma foldl_block_store_lookup dir f msgs p :
  foldl (block_store dir) f msgs !! p =
    match last_written dir p msgs with
    | Some m => Some (block_data m)
    | None => f !! p
    end.
Proof.
  unfold last_written.
  induction msgs as [|m msgs IH] using rev_ind; [done|].
  rewrite foldl_app, filter_app. cbn [foldl].
  unfold block_store at 1.
  destruct (written m) eqn:Ew.
  - destruct (decide (block_path dir m = p)) as [<-|Hne].
    + rewrite lookup_insert_eq.
      rewrite (filter_cons_True _ m) by done.
      by rewrite filter_nil, last_snoc.
    + rewrite lookup_insert_ne by done.
      rewrite (filter_cons_False _ m) by (by intros [_ ?]).
      by rewrite filter_nil, app_nil_r.
  - rewrite (filter_cons_False _ m) by (intros [? _]; congruence).
    by rewrite filter_nil, app_nil_r.
Qed.

(** C4, amended: in a successful run the files written are, in the order
    of delivery, one file [blocks/<sequence>] for each delivered record
    that carries a payload and a nonzero sequence number, whether or not
    that number lies within the bounds, followed by the manifest when a
    bucket is configured.  The archiver therefore runs on the initial
    files overwritten, path by path, by the last such record delivered
    for that path. *)
Theorem block_files_of_run w flags s :
  run w flags = (Done tt, s) →
  writes (trace s) =
    (block_file (blockExportPath_of w flags)
       <$> filter (λ m, written m = true) (records_of w))
    ++ (if truthy_string (bucket_of w flags)
        then [(manifestPath_of w flags,
               bytes_of_string (JSON_stringify (manifest_of w flags)))]
        else [])
  ∧ fs s = final_fs w flags
  ∧ ∀ p, downloaded w flags !! p =
           match last_written (blockExportPath_of w flags) p (records_of w) with
           | Some m => Some (block_data m)
           | None => fs_init w !! p
           end.
Proof.
  intros H. split; [|split].
  - apply run_sound in H. remember (trace s) as tr. remember (Done tt) as r.
    destruct H; try discriminate; stages.
    all: match goal with Hb : truthy_string _ = _ |- _ => rewrite Hb end.
    all: by rewrite ?app_nil_r.
  - by apply run_final_fs.
  - intros p. apply foldl_block_store_lookup.
Qed.

(** C4, counterexample: with bounds 10..12 the record of sequence 99 and
    the record with a payload of zero bytes both get a file. *)
Lemma files_beyond_the_bounds :
  ¬ files_are_the_bounded_records odd_stream without_bucket.
Proof.
  intros H.
  destruct (H (run odd_stream without_bucket).2 "/tmp/snap/blocks/99"
              (bytes_of_string "Z")) as [Hto _]; [by vm_compute|].
  destruct Hto as (m & Hm & _ & Hb & He).
  - split; [|by vm_compute].
    assert (writes (trace (run odd_stream without_bucket).2) =
              [("/tmp/snap/blocks/10", bytes_of_string "A");
               ("/tmp/snap/blocks/99", bytes_of_string "Z");
               ("/tmp/snap/blocks/11", [])]) as -> by (vm_compute; reflexivity).
    apply elem_of_cons. right. apply elem_of_cons. by left.
  - cbv [records_of odd_stream sample_world rpc_messages tail] in Hm.
    apply elem_of_cons in Hm as [->|Hm]; [by vm_compute in He|].
    apply elem_of_cons in Hm as [->|Hm]; [by vm_compute in Hb|].
    apply elem_of_cons in Hm as [->|Hm]; [by vm_compute in He|].
    by apply not_elem_of_nil in Hm.
Qed.

Lemma block_files_of_run_witness :
  run odd_stream without_bucket = (Done tt, (run odd_stream without_bucket).2)
  ∧ writes (trace (run odd_stream without_bucket).2) =
      [("/tmp/snap/blocks/10", bytes_of_string "A");
       ("/tmp/snap/blocks/99", bytes_of_string "Z");
       ("/tmp/snap/blocks/11", [])].
Proof.
  assert (Hrun : run odd_stream without_bucket
                 = (Done tt, (run odd_stream without_bucket).2)) by (vm_compute; reflexivity).
  split; [exact Hrun|].
  destruct (block_files_of_run odd_stream without_bucket _ Hrun) as [Hw _].
  rewrite Hw. by vm_compute.
Defined.

(** ** The digest *)

Lemma length_unchars l : String.length (unchars l) = length l.
Proof. induction l as [|c l IH]; simpl; [done|]. by rewrite IH. Qed.

Lemma length_hex_chars b : length (hex_chars b) = (2 * length b)%nat.
Proof. induction b as [|x b IH]; simpl; [done|]. rewrite IH. lia. Qed.

Lemma hex_digit_lower n : is_lower_hex (hex_digit n) = true.
Proof.
  destruct n as [|p]; [done|].
  do 4 (destruct p as [p|p|]; try done).
Qed.

Lemma hex_chars_lower b : forallb is_lower_hex (hex_chars b) = true.
Proof.
  induction b as [|x b IH]; simpl; [done|].
  by rewrite !hex_digit_lower, IH.
Qed.

Module sha256_facts.
Import sha256.

Lemma length_round h kw : length h = 8%nat → length (round h kw) = 8%nat.
Proof.
  intros Hlen. unfold round.
  do 9 (destruct h as [|? h]; try done).
Qed.

Lemma length_rounds kws h :
  length h = 8%nat → length (fold_left round kws h) = 8%nat.
Proof.
  revert h. induction kws as [|kw kws IH]; intros h Hlen; simpl; [done|].
  apply IH. by apply length_round.
Qed.

Lemma length_compress h block :
  length h = 8%nat → length (compress h block) = 8%nat.
Proof.
  intros Hlen. unfold compress.
  rewrite length_zip_with, length_rounds by done. lia.
Qed.

Lemma length_blocks fuel h l :
  length h = 8%nat → length (blocks fuel h l) = 8%nat.
Proof.
  revert h l. induction fuel as [|fuel IH]; intros h l Hlen; simpl; [done|].
  destruct l; [done|]. apply IH. by apply length_compress.
Qed.

Lemma length_be_bytes n z : length (be_bytes n z) = n.
Proof. induction n as [|n IH]; simpl; [done|]. by rewrite IH. Qed.

Lemma length_bind_be_bytes (ws : list Z) :
  length (ws ≫= be_bytes 4) = (4 * length ws)%nat.
Proof.
  induction ws as [|x ws IH]; [done|].
  rewrite bind_cons, length_app, IH, length_be_bytes. simpl. lia.
Qed.

(** A SHA-256 digest has 32 bytes. *)
Lemma length_digest msg : length (digest msg) = 32%nat.
Proof.
  unfold digest. rewrite length_fmap, length_bind_be_bytes, length_blocks; done.
Qed.

(** The two tables are the constants the standard defines. *)
Lemma K_cube_roots :
  K = (λ p, cube_root 35 0 (p * 2 ^ 96) mod 2 ^ 32) <$> primes64.
Proof. vm_compute. reflexivity. Qed.

Lemma H0_square_roots :
  H0 = (λ p, Z.sqrt (p * 2 ^ 64) mod 2 ^ 32) <$> take 8 primes64.
Proof. vm_compute. reflexivity. Qed.

End sha256_facts.

(** The checksum is 64 characters of lowercase hexadecimal. *)
Lemma checksum_format data :
  String.length (toString_hex (sha256.digest data)) = 64%nat
  ∧ forallb is_lower_hex (chars (toString_hex (sha256.digest data))) = true.
Proof.
  unfold toString_hex. split.
  - by rewrite length_unchars, length_hex_chars, sha256_facts.length_digest.
  - rewrite path_facts.chars_unchars. apply hex_chars_lower.
Qed.

(** ** The manifest *)

(** Once the archive upload has exited and the manifest path is
    writable, the manifest of [manifest_of] is among the files written. *)
Lemma manifest_written w flags r s :
  run w flags = (r, s) →
  truthy_string (bucket_of w flags) = true →
  ("curl", archive_upload_args w flags) ∈ spawns (trace s) →
  resolved (archive_upload_settled w flags) →
  fs_writable w (manifestPath_of w flags) = true →
  (manifestPath_of w flags, bytes_of_string (JSON_stringify (manifest_of w flags)))
    ∈ writes (trace s).
Proof.
  intros H Hb. run_cases H; try congruence.
  all: stages; intros; trace_crush.
  all: try done; try congruence.
  all: rewrite ?elem_of_app, ?elem_of_cons; eauto 10.
Qed.

(** C7: a manifest that is written has the stream's [stop] as
    [block_height], the byte length of the archive file as [file_size],
    the lowercase hexadecimal SHA-256 digest of the archive file as
    [checksum], and the base name of the archive file as [file_name]. *)
Theorem manifest_describes_archive w flags r s data :
  run w flags = (r, s) →
  (manifestPath_of w flags, data) ∈ writes (trace s) →
  ∃ bounds archive,
    head (rpc_messages w) = Some bounds
    ∧ archived w flags !! snapshotPath_of w flags = Some archive
    ∧ data = bytes_of_string
               (JSON_stringify
                  {| block_height := r_stop bounds;
                     checksum := toString_hex (sha256.digest archive);
                     file_name := path.basename (snapshotPath_of w flags);
                     file_size := Z.of_nat (length archive);
                     timestamp := timestamp_of w |})
    ∧ String.length (toString_hex (sha256.digest archive)) = 64%nat
    ∧ forallb is_lower_hex (chars (toString_hex (sha256.digest archive))) = true
    ∧ digests (trace s) = [toString_hex (sha256.digest archive)].
Proof.
  intros H Hin. run_cases H; revert Hin; stages; intros Hin; trace_crush.
  all: subst data.
  all: match goal with
       | Hc : stream_complete _ _ |- _ => destruct Hc as (_ & Hne & _)
       end.
  all: destruct (rpc_messages w) as [|bounds msgs] eqn:Emsgs; [done|].
  all: match goal with
       | Hs : is_Some (archived _ _ !! _) |- _ => destruct Hs as [archive Ha]
       end.
  all: exists bounds, archive.
  all: assert (Harch : archive_of w flags = archive)
         by (unfold archive_of; by rewrite Ha).
  all: split; [done|]; split; [done|].
  all: split; [|split; [apply checksum_format|split; [apply checksum_format|]]].
  all: unfold manifest_of, stop_of; rewrite ?Emsgs, ?Harch; cbn [head from_option].
  all: unfold snapshotPath_of; rewrite ?path_facts.basename_join
         by apply path_facts.plain_snapshotFileName.
  all: done.
Qed.

Lemma manifest_describes_archive_witness :
  run fair_world with_bucket
    = ((run fair_world with_bucket).1, (run fair_world with_bucket).2)
  ∧ (manifestPath_of fair_world with_bucket,
     bytes_of_string (JSON_stringify (manifest_of fair_world with_bucket)))
      ∈ writes (trace (run fair_world with_bucket).2)
  ∧ ∃ archive,
      archived fair_world with_bucket !! snapshotPath_of fair_world with_bucket
        = Some archive
      ∧ digests (trace (run fair_world with_bucket).2)
        = [toString_hex (sha256.digest archive)].
Proof.
  split; [apply surjective_pairing|].
  assert (Hin : (manifestPath_of fair_world with_bucket,
                 bytes_of_string (JSON_stringify (manifest_of fair_world with_bucket)))
                  ∈ writes (trace (run fair_world with_bucket).2)).
  { apply (manifest_written fair_world with_bucket _ _ (surjective_pairing _)).
    - reflexivity.
    - apply (bool_decide_unpack _). vm_compute. exact I.
    - by exists (Some 0).
    - reflexivity. }
  split; [exact Hin|].
  destruct (manifest_describes_archive fair_world with_bucket _ _ _
              (surjective_pairing _) Hin)
    as (bounds & archive & _ & Ha & _ & _ & _ & Hd).
  exists archive. split; [exact Ha|exact Hd].
Defined.

(** ** The publisher *)

(** C8: an upload is one [curl] process that puts the file to
    [https://<host>/<basename(file)>] with the four headers [Host],
    [Date] (the current time in ISO 8601), [Content-Type] and
    [x-amz-acl: bucket-owner-full-control]. *)
Theorem uploadToBucket_request w dest host contentType s :
  ∃ r f,
    uploadToBucket w dest host contentType s =
      (r,
       {| fs := f;
          channel := channel s;
          ticks := S (ticks s);
          trace := trace s ++
            [Spawn "curl"
               [ "-X"; "PUT"; "-T"; dest;
                 "-H"; "Host: " +:+ host;
                 "-H"; "Date: " +:+ Date.toISOString (clock w (ticks s));
                 "-H"; "Content-Type: " +:+ contentType;
                 "-H"; "x-amz-acl: bucket-owner-full-control";
                 "https://" +:+ host +:+ "/" +:+ path.basename dest ]] |}).
Proof.
  msimpl. unfold uploadToBucket_args.
  destruct (settle _ _) as [[code|]|]; by eexists _, _.
Qed.

(** ** The stream *)

(** C6: the stream is requested once; the messages are taken from it
    once each and in order, the bounds first; and when the download loop
    has ended, the loop has processed exactly the messages that follow
    the bounds message, right after the progress was initialised from the
    bounds. *)
Theorem bounds_then_records w flags r s :
  run w flags = (r, s) →
  (length (requests (trace s)) ≤ 1)%nat
  ∧ receives (trace s) `prefix_of` rpc_messages w
  ∧ (ProgressStop ∈ trace s →
     ∃ bounds rest,
       rpc_messages w = bounds :: records_of w
       ∧ requests (trace s) = [flag_maxBlocksPerChunk flags]
       ∧ receives (trace s) = bounds :: records_of w
       ∧ trace s =
           [Mkdir (blockExportPath_of w flags); ConnectRpc;
            SnapshotChainStream (flag_maxBlocksPerChunk flags);
            Receive bounds;
            ProgressStart (r_stop bounds - r_start bounds + 1) 0]
           ++ (records_of w ≫= block_events (blockExportPath_of w flags))
           ++ ProgressStop :: rest).
Proof.
  intros H. run_cases H.
  1-4: stages; split; [simpl; lia|split; [apply prefix_nil|]];
       intros Hin; by trace_crush.
  { rewrite requests_stream_failed by done.
    split; [simpl; lia|]. split; [by apply receives_stream_failed|].
    intros Hin. by apply ProgressStop_not_in_stream_failed in Hin. }
  all: match goal with
       | Hc : stream_complete _ _ |- _ => destruct Hc as (_ & Hne & _)
       end.
  all: destruct (T_archiving_shape w flags Hne) as (bounds & Emsgs & Eshape).
  all: pose proof (receives_T_archiving w flags Hne) as Hrec.
  all: stages; rewrite ?Hrec, ?app_nil_r.
  all: split; [simpl; lia|]; split; [done|]; intros _.
  all: exists bounds; eexists.
  all: split; [done|]; split; [done|]; split; [by rewrite <- Emsgs|].
  all: rewrite Eshape, <- ?app_assoc; cbn [app]; reflexivity.
Qed.

Lemma bounds_then_records_witness :
  run fair_world without_bucket
    = ((run fair_world without_bucket).1, (run fair_world without_bucket).2)
  ∧ receives (trace (run fair_world without_bucket).2) = three_blocks
  ∧ requests (trace (run fair_world without_bucket).2) = [1000].
Proof.
  split; [apply surjective_pairing|].
  destruct (bounds_then_records fair_world without_bucket _ _ (surjective_pairing _))
    as (_ & _ & Hloop).
  destruct Hloop as (bounds & rest & Hmsgs & Hreq & Hrec & _).
  - assert (trace (run fair_world without_bucket).2 =
              T_digested fair_world without_bucket) as -> by (vm_compute; reflexivity).
    unfold T_digested, T_stat, T_archiving.
    rewrite !elem_of_app, !elem_of_cons. tauto.
  - split; [by rewrite Hrec, <- Hmsgs|exact Hreq].
Defined.

(** ** The time stamp *)

(** C10: in a successful run with a bucket, the clock is read once by
    [Date.now()], after the download loop has ended and before the
    archiver is started; the value read is the number in the archive's
    file name and the [timestamp] of the manifest. *)
Theorem one_timestamp w flags s :
  run w flags = (Done tt, s) →
  truthy_string (bucket_of w flags) = true →
  ∃ t pre post manifest,
    trace s =
      pre
      ++ [ProgressStop; DateNow t;
          Spawn "tar"
            (zipDir_args (blockExportPath_of w flags)
               (path.join (exportDir_of w flags)
                  ("ironfish_snapshot_" +:+ Number_toString t +:+ ".tar.gz"))
               [])]
      ++ post
    ∧ spawns pre = [] ∧ clock_reads pre = []
    ∧ receives post = [] ∧ clock_reads post = []
    ∧ writes post =
        [(manifestPath_of w flags, bytes_of_string (JSON_stringify manifest))]
    ∧ timestamp manifest = t
    ∧ file_name manifest = "ironfish_snapshot_" +:+ Number_toString t +:+ ".tar.gz".
Proof.
  intros H Hb. apply run_sound in H.
  remember (trace s) as tr. remember (Done tt) as r.
  destruct H; try discriminate; try congruence.
  exists (timestamp_of w), (T_bounded w flags ++ T_blocks w flags),
    [Stat (snapshotPath_of w flags); Open (snapshotPath_of w flags);
     Digest (checksum (manifest_of w flags));
     Spawn "curl" (archive_upload_args w flags);
     WriteFile (manifestPath_of w flags)
       (bytes_of_string (JSON_stringify (manifest_of w flags)));
     Spawn "curl" (manifest_upload_args w flags)],
    (manifest_of w flags).
  split.
  { unfold T_published, T_manifest, T_uploading, T_digested, T_stat, T_archiving.
    rewrite <- !app_assoc. reflexivity. }
  unfold T_blocks.
  rewrite spawns_app, clock_reads_app, spawns_T_bounded, clock_reads_T_bounded,
    spawns_blocks, clock_reads_blocks.
  done.
Qed.

Lemma one_timestamp_witness :
  run fair_world with_bucket = (Done tt, (run fair_world with_bucket).2)
  ∧ truthy_string (bucket_of fair_world with_bucket) = true
  ∧ ∃ t manifest,
      clock_reads (trace (run fair_world with_bucket).2) = [t]
      ∧ timestamp manifest = t
      ∧ file_name manifest = "ironfish_snapshot_" +:+ Number_toString t +:+ ".tar.gz".
Proof.
  assert (Hrun : run fair_world with_bucket
                 = (Done tt, (run fair_world with_bucket).2)) by (vm_compute; reflexivity).
  split; [exact Hrun|]. split; [reflexivity|].
  destruct (one_timestamp fair_world with_bucket _ Hrun eq_refl)
    as (t & pre & post & manifest & Htr & _ & Hpre & _ & Hpost & _ & Ht & Hname).
  exists t, manifest. split; [|by split].
  by rewrite Htr, !clock_reads_app, Hpre, Hpost.
Defined.

(** * Further properties of the command *)

(** ** [zipDir] and [uploadToBucket] on their own *)

(** The arguments of [tar]: every exclude pattern is preceded by
    [--exclude], all of them come before the archive options, in the
    reverse of the order given, and the archive is built from the parent
    of the source directory with the base name of the source as its only
    entry. *)
Theorem zipDir_args_layout source dest excludes :
  zipDir_args source dest excludes =
    (rev excludes ≫= λ exclude, ["--exclude"; exclude])
    ++ ["-zcf"; dest; "-C"; path.dirname source; path.basename source].
Proof.
  unfold zipDir_args.
  generalize ["-zcf"; dest; "-C"; path.dirname source; path.basename source].
  induction excludes as [|x excludes IH]; intros args; [done|].
  cbn [fold_left rev]. rewrite IH, bind_app, <- app_assoc. done.
Qed.

Lemma settle_skip listener pre rest :
  Forall (λ e, listener e = None) pre →
  settle listener (pre ++ rest) = settle listener rest.
Proof.
  induction 1 as [|e pre He _ IH]; [done|].
  cbn [app settle]. by rewrite He.
Qed.

(** [zipDir] is settled by the first event of the child that is not a
    message: it returns the code of an [exit] or [close], whatever the
    code, and throws on [error]. *)
Theorem zipDir_first_event w source dest excludes s pre e post :
  child_events w "tar" (zipDir_args source dest excludes) = pre ++ e :: post →
  forallb is_message pre = true →
  is_message e = false →
  (zipDir w source dest excludes s).1 =
    match e with
    | OnExit code | OnClose code => Done code
    | _ => Fail (Thrown SpawnError)
    end.
Proof.
  intros Hev Hpre He. msimpl. rewrite Hev, settle_skip.
  - by destruct e.
  - rewrite forallb_forall in Hpre. apply Forall_forall.
    intros x Hx%list_elem_of_In. specialize (Hpre x Hx). by destruct x.
Qed.

Lemma zipDir_first_event_witness :
  (zipDir tar_exits_2 "/tmp/snap/blocks" "/tmp/snap/a.tar.gz" [] (initial tar_exits_2)).1
  = Done (Some 2).
Proof.
  apply (zipDir_first_event tar_exits_2 _ _ _ _ [] (OnExit (Some 2)) [OnClose (Some 2)]);
    reflexivity.
Defined.

(** [uploadToBucket] does not listen to [close]: it is settled by the
    first [exit] or [error] of the child, returns the exit code whatever
    it is, and throws on [error]. *)
Theorem uploadToBucket_first_event w dest host contentType s pre e post :
  child_events w "curl"
    (uploadToBucket_args dest host contentType
       (Date.toISOString (clock w (ticks s)))) = pre ++ e :: post →
  forallb is_message_or_close pre = true →
  is_message_or_close e = false →
  (uploadToBucket w dest host contentType s).1 =
    match e with
    | OnExit code => Done code
    | _ => Fail (Thrown SpawnError)
    end.
Proof.
  intros Hev Hpre He. msimpl. rewrite Hev, settle_skip.
  - by destruct e.
  - rewrite forallb_forall in Hpre. apply Forall_forall.
    intros x Hx%list_elem_of_In. specialize (Hpre x Hx). by destruct x.
Qed.

Lemma uploadToBucket_first_event_witness :
  (uploadToBucket upload_exits_1 "/tmp/snap/manifest.json" "bucket.example"
     "application/json" (initial upload_exits_1)).1 = Done (Some 1).
Proof.
  apply (uploadToBucket_first_event upload_exits_1 _ _ _ _ [] (OnExit (Some 1))
           [OnClose (Some 1)]); reflexivity.
Defined.

(** [uploadToBucket] has no [close] listener: when the child reports
    and closes its streams without an [exit] event, the promise is never
    settled. *)
Theorem uploadToBucket_waits_for_exit w dest host contentType s :
  forallb is_message_or_close
    (child_events w "curl"
       (uploadToBucket_args dest host contentType
          (Date.toISOString (clock w (ticks s))))) = true →
  (uploadToBucket w dest host contentType s).1 = Fail Pending.
Proof.
  intros Hall. msimpl.
  rewrite <- (app_nil_r (child_events _ _ _)), settle_skip; [done|].
  rewrite forallb_forall in Hall. apply Forall_forall.
  intros x Hx%list_elem_of_In. specialize (Hall x Hx). by destruct x.
Qed.

Lemma uploadToBucket_waits_for_exit_witness :
  (uploadToBucket curl_never_exits "/tmp/snap/manifest.json" "bucket.example"
     "application/json" (initial curl_never_exits)).1 = Fail Pending.
Proof. apply (uploadToBucket_waits_for_exit curl_never_exits). reflexivity. Defined.

(** ** The order of the steps of a run *)

Ltac peel :=
  repeat lazymatch goal with
    | |- ?a `prefix_of` ?a => reflexivity
    | |- _ `prefix_of` _ ++ _ => apply prefix_app_r
    end.

Section Order.

Variable w : World.
Variable flags : Flags.

Lemma T_archiving_complete :
  T_archiving w flags `prefix_of` T_complete w flags.
Proof.
  unfold T_complete.
  destruct (truthy_string (bucket_of w flags));
    unfold T_published, T_manifest, T_uploading, T_digested, T_stat; peel.
Qed.

Lemma T_bounded_archiving evs :
  evs `prefix_of` T_blocks w flags →
  T_bounded w flags ++ evs `prefix_of` T_archiving w flags.
Proof. intros H. unfold T_archiving. by apply prefix_app, prefix_app_r. Qed.

End Order.

Lemma run_prefix w flags r s :
  run w flags = (r, s) → trace s `prefix_of` T_complete w flags.
Proof.
  intros H. run_cases H.
  all: first
    [ apply prefix_nil
    | etrans; [|apply T_archiving_complete];
      first [ by apply T_bounded_archiving
            | unfold T_archiving, T_bounded, T_requested; by peel ]
    | unfold T_complete;
      match goal with Hb : truthy_string _ = _ |- _ => rewrite Hb end;
      first [ reflexivity
            | unfold T_published, T_manifest, T_uploading, T_digested, T_stat;
              by peel ]
    | unfold T_complete; destruct (truthy_string _);
      unfold T_published, T_manifest, T_uploading, T_digested; by peel ].
Qed.

(** Whatever happens, a run performs an initial part of the steps of the
    complete run, in their order: it never skips a step, repeats one or
    does anything else after a failure.  A run that succeeds has
    performed them all, and a run that has performed them all has only
    the last upload left to fail. *)
Theorem steps_in_order w flags r s :
  run w flags = (r, s) →
  trace s `prefix_of` T_complete w flags
  ∧ (r = Done tt → trace s = T_complete w flags)
  ∧ (trace s = T_complete w flags →
     r = Done tt
     ∨ truthy_string (bucket_of w flags) = true
       ∧ r = Fail (await_failure (manifest_upload_settled w flags))).
Proof.
  intros H. split; [by eapply run_prefix|].
  run_cases H.
  all: split; [try discriminate; intros _|].
  all: try (unfold T_complete;
            match goal with Hb : truthy_string _ = _ |- _ => by rewrite Hb end).
  all: try (by left); try (by right).
  all: intros E; exfalso.
  all: apply (f_equal (λ t, (length (spawns t) + length (digests t))%nat)) in E.
  all: revert E; unfold T_complete.
  all: destruct (truthy_string (bucket_of w flags)); try discriminate.
  all: stages; discriminate.
Qed.

Lemma steps_in_order_witness :
  trace (run tar_writes_nothing without_bucket).2
    `prefix_of` T_complete tar_writes_nothing without_bucket.
Proof.
  apply (steps_in_order tar_writes_nothing without_bucket _ _ (surjective_pairing _)).
Defined.

(** At most three child processes are started, each at most once and in
    this order: [tar], [curl] for the archive, [curl] for the manifest.
    A run that succeeds has started [tar] alone when there is no bucket,
    and all three otherwise. *)
Theorem children_in_order w flags r s :
  run w flags = (r, s) →
  spawns (trace s) `prefix_of`
    [("tar", tar_args w flags);
     ("curl", archive_upload_args w flags);
     ("curl", manifest_upload_args w flags)]
  ∧ (r = Done tt →
     spawns (trace s) =
       ("tar", tar_args w flags) ::
       if truthy_string (bucket_of w flags)
       then [("curl", archive_upload_args w flags);
             ("curl", manifest_upload_args w flags)]
       else []).
Proof.
  intros H. run_cases H.
  all: stages; split; [|try discriminate].
  all: try apply prefix_nil.
  all: try (by eexists).
  all: match goal with Hb : truthy_string _ = _ |- _ => by rewrite Hb end.
Qed.

Lemma children_in_order_witness :
  spawns (trace (run upload_exits_1 with_bucket).2) =
    [("tar", tar_args upload_exits_1 with_bucket);
     ("curl", archive_upload_args upload_exits_1 with_bucket);
     ("curl", manifest_upload_args upload_exits_1 with_bucket)].
Proof.
  apply (children_in_order upload_exits_1 with_bucket _ _ (surjective_pairing _)).
  vm_compute. reflexivity.
Defined.



(** Without a [--path] (or with an empty one), the command exits with
    status 1 when no temporary directory can be made, and has done
    nothing by then: no directory made, the node not contacted. *)
Theorem no_temp_dir_exits w flags :
  truthy_string (default EmptyString (flag_path flags)) = false →
  fs_mkdtemp w = None →
  run w flags = (Fail (Thrown (ExitError 1)), initial w).
Proof.
  intros Hp Ht. unfold run, start. rewrite Hp.
  unfold bind, try_catch, mkdtemp. rewrite Ht. reflexivity.
Qed.

Lemma no_temp_dir_exits_witness :
  run no_tmp_dir without_bucket = (Fail (Thrown (ExitError 1)), initial no_tmp_dir).
Proof. apply (no_temp_dir_exits no_tmp_dir without_bucket); reflexivity. Defined.

(** ** The files of a snapshot *)

(** Printing in decimal loses nothing. *)
Lemma Number_toString_inj n n' : Number_toString n = Number_toString n' → n = n'.
Proof.
  unfold Number_toString. intros E.
  apply (f_equal NilZero.int_of_string) in E.
  assert (Hnil : ∀ z, Z.to_int z ≠ Decimal.Pos Decimal.Nil
                     ∧ Z.to_int z ≠ Decimal.Neg Decimal.Nil).
  { intros [|p|p]; split; try done; simpl; intros [= E'].
    all: by apply Unsigned.to_uint_nonnil in E'. }
  rewrite !NilZero.isi in E by apply Hnil.
  injection E as E. apply (f_equal Z.of_int) in E. by rewrite !DecimalZ.of_to in E.
Qed.

(** Two records go to the same file exactly when they carry the same
    sequence number, whatever the export directory: records with
    different sequence numbers never overwrite each other, and a record
    delivered twice is written to one file. *)
Theorem one_file_per_sequence dir m m' :
  block_path dir m = block_path dir m' ↔ block_seq m = block_seq m'.
Proof.
  unfold block_path. split; [|by intros ->].
  intros E. apply (f_equal path.basename) in E.
  rewrite !path_facts.basename_join in E by apply path_facts.plain_Number_toString.
  by apply Number_toString_inj.
Qed.

(** The three kinds of files of a snapshot have different base names,
    so that no block file, wherever it lies, is overwritten by the
    archive or the manifest, and the two uploads go to different
    URLs. *)
Theorem file_names_differ dir dir' dir'' seq timestamp :
  path.join dir (Number_toString seq) ≠ path.join dir' (snapshotFileName_of timestamp)
  ∧ path.join dir (Number_toString seq) ≠ path.join dir'' "manifest.json"
  ∧ path.join dir' (snapshotFileName_of timestamp) ≠ path.join dir'' "manifest.json".
Proof.
  split; [|split]; intros E; apply (f_equal path.basename) in E.
  all: rewrite !path_facts.basename_join in E
    by (done || apply path_facts.plain_Number_toString
        || apply path_facts.plain_snapshotFileName).
  - pose proof (path_facts.numeric_Number_toString seq) as H.
    rewrite E in H. unfold snapshotFileName_of in H.
    by rewrite path_facts.chars_app in H.
  - by apply path_facts.Number_toString_not_manifest in E.
  - unfold snapshotFileName_of in E. discriminate.
Qed.

(** ** The progress bar *)

Lemma progress_T_archiving w flags :
  progress (T_archiving w flags) =
    block_seq <$> filter (λ m, written m = true) (records_of w).
Proof.
  unfold T_archiving, T_blocks, T_bounded, T_requested, T_prepared.
  rewrite !progress_app, progress_blocks.
  destruct (head (rpc_messages w)); cbn; by rewrite app_nil_r.
Qed.

Lemma progress_T_complete w flags :
  progress (T_complete w flags) =
    block_seq <$> filter (λ m, written m = true) (records_of w).
Proof.
  unfold T_complete, T_published, T_manifest, T_uploading, T_digested, T_stat.
  destruct (truthy_string _); rewrite !progress_app, progress_T_archiving;
    cbn; by rewrite ?app_nil_r.
Qed.

(** The progress bar is moved once for each record written, to the
    sequence number of that record as it is (not to the count of records
    so far), in the order of delivery; when the bar is stopped it has
    been moved for all of them. *)
Theorem progress_follows_records w flags r s :
  run w flags = (r, s) →
  progress (trace s)
    `prefix_of` (block_seq <$> filter (λ m, written m = true) (records_of w))
  ∧ (ProgressStop ∈ trace s →
     progress (trace s) = block_seq <$> filter (λ m, written m = true) (records_of w)).
Proof.
  intros H. split.
  - rewrite <- (progress_T_complete w flags).
    apply omap_prefix. by eapply run_prefix.
  - run_cases H.
    all: try (by intros ?%not_elem_of_nil).
    all: try (by intros ?%ProgressStop_not_in_stream_failed).
    all: try (unfold T_requested, T_prepared; intros Hin;
              repeat (apply elem_of_cons in Hin as [?|Hin]; [done|]);
              by apply not_elem_of_nil in Hin).
    all: intros _.
    all: unfold T_published, T_manifest, T_uploading, T_digested, T_stat.
    all: rewrite ?progress_app, progress_T_archiving; cbn; by rewrite ?app_nil_r.
Qed.

Lemma progress_follows_records_witness :
  progress (trace (run odd_stream without_bucket).2)
    `prefix_of` (block_seq <$> filter (λ m, written m = true) (records_of odd_stream)).
Proof.
  apply (progress_follows_records odd_stream without_bucket _ _ (surjective_pairing _)).
Defined.

(** ** Failures on the way *)

(** When a record that is to be written cannot be, the job fails before
    the progress bar is stopped: the clock is not read, no child process
    is started, and the files written before the failure are left as
    they are. *)
Theorem unwritable_block_fails_job w flags r s :
  run w flags = (r, s) →
  Exists (λ m, written m = true
               ∧ fs_writable w (block_path (blockExportPath_of w flags) m) = false)
    (records_of w) →
  (∃ e, r = Fail (Thrown e))
  ∧ (ProgressStop ∉ trace s)
  ∧ clock_reads (trace s) = []
  ∧ spawns (trace s) = []
  ∧ writes (trace s)
      `prefix_of` (block_file (blockExportPath_of w flags)
                     <$> filter (λ m, written m = true) (records_of w)).
Proof.
  intros H Hex.
  assert (Hn : ¬ stream_complete w flags).
  { intros (_ & _ & _ & Hall). apply Exists_exists in Hex as (m & Hin & Hw & Hf).
    rewrite Forall_forall in Hall. specialize (Hall m Hin Hw). congruence. }
  run_cases H; try done.
  all: split; [by eexists|].
  all: split; [|split; [|split]].
  all: try apply not_elem_of_nil; try apply prefix_nil; try reflexivity.
  all: try (by apply ProgressStop_not_in_stream_failed).
  all: try (by apply spawns_stream_failed).
  all: try (by apply writes_stream_failed).
  all: try (unfold T_requested, T_prepared; intros Hin;
            repeat (apply elem_of_cons in Hin as [?|Hin]; [done|]);
            by apply not_elem_of_nil in Hin).
  all: rewrite clock_reads_app, clock_reads_T_bounded.
  all: match goal with
       | Hp : ?evs `prefix_of` _ |- _ =>
           apply (omap_prefix (λ e, match e with DateNow t => Some t | _ => None end))
             in Hp;
           fold (clock_reads evs) in Hp; unfold T_blocks in Hp;
           fold (clock_reads (records_of w ≫= block_events (blockExportPath_of w flags)))
             in Hp;
           rewrite clock_reads_blocks in Hp;
           by rewrite (prefix_nil_inv _ Hp)
       end.
Qed.

Lemma unwritable_block_fails_job_witness :
  (∃ e, (run read_only_block without_bucket).1 = Fail (Thrown e))
  ∧ writes (trace (run read_only_block without_bucket).2)
    = [("/tmp/snap/blocks/10", bytes_of_string "A")].
Proof.
  destruct (unwritable_block_fails_job read_only_block without_bucket _ _
              (surjective_pairing _)) as (He & _).
  - apply Exists_cons_tl, Exists_cons_hd. split; reflexivity.
  - split; [exact He|]. vm_compute. reflexivity.
Defined.

(** When [tar] has exited and there is no archive at the destination,
    the job fails at [stat]: nothing is hashed and nothing uploaded,
    whatever the bucket. *)
Theorem missing_archive_fails_job w flags r s :
  run w flags = (r, s) →
  dir_ready w flags →
  stream_complete w flags →
  resolved (tar_settled w flags) →
  archived w flags !! snapshotPath_of w flags = None →
  r = Fail (Thrown (FsError "stat" (snapshotPath_of w flags)))
  ∧ digests (trace s) = []
  ∧ spawns (trace s) = [("tar", tar_args w flags)].
Proof.
  intros H [Hd Hm] Hs Ht Ha.
  run_cases H.
  all: try match goal with
         | Hx : is_Some (archived _ _ !! _) |- _ => rewrite Ha in Hx; by destruct Hx
         end.
  all: try (destruct Hs as (? & ? & ? & Hall); congruence).
  - destruct Hd as [?|[? ?]]; congruence.
  - destruct Hs as (_ & _ & Hb & Hall).
    match goal with
    | Hor : _ ∨ Exists _ _ |- _ =>
        destruct Hor as [?|(m & Hin & Hw & Hf)%Exists_exists]; [congruence|]
    end.
    rewrite Forall_forall in Hall. specialize (Hall m Hin Hw). congruence.
  - by stages.
Qed.

Lemma missing_archive_fails_job_witness :
  (run tar_writes_nothing without_bucket).1 =
    Fail (Thrown (FsError "stat" "/tmp/snap/ironfish_snapshot_1667343600123.tar.gz")).
Proof.
  apply (missing_archive_fails_job tar_writes_nothing without_bucket _ _
           (surjective_pairing _)).
  - split; [right; by eexists|reflexivity].
  - split; [reflexivity|]. split; [done|]. split; [reflexivity|].
    repeat constructor.
  - by exists (Some 2).
  - reflexivity.
Defined.

(** When the manifest upload cannot be started or never exits, the job
    fails with the archive already uploaded and the manifest file
    written: nothing is undone. *)
Theorem manifest_upload_failure w flags r s :
  run w flags = (r, s) →
  ("curl", manifest_upload_args w flags) ∈ spawns (trace s) →
  ¬ resolved (manifest_upload_settled w flags) →
  r = Fail (await_failure (manifest_upload_settled w flags))
  ∧ resolved (archive_upload_settled w flags)
  ∧ spawns (trace s) =
      [("tar", tar_args w flags);
       ("curl", archive_upload_args w flags);
       ("curl", manifest_upload_args w flags)]
  ∧ (manifestPath_of w flags, bytes_of_string (JSON_stringify (manifest_of w flags)))
      ∈ writes (trace s).
Proof.
  intros H Hin Hn. run_cases H.
  all: revert Hin; stages; intros Hin; trace_crush.
  split; [done|]. split; [done|]. split; [done|].
  rewrite ?elem_of_app, ?elem_of_cons. eauto 10.
Qed.

Lemma manifest_upload_failure_witness :
  (run manifest_upload_unstarted with_bucket).1 = Fail (Thrown SpawnError)
  ∧ resolved (archive_upload_settled manifest_upload_unstarted with_bucket).
Proof.
  destruct (manifest_upload_failure manifest_upload_unstarted with_bucket _ _
              (surjective_pairing _)) as (Hr & Ha & _).
  - apply (bool_decide_unpack _). vm_compute. exact I.
  - intros [code Hc]. vm_compute in Hc. discriminate.
  - split; [exact Hr | exact Ha].
Defined.

(** The archive holds one member, the directory [blocks], taken
    relative to the directory that holds it; the archive file carries the
    time stamp of the run in its name. *)
Theorem archive_member_is_blocks w flags r s args :
  run w flags = (r, s) →
  ("tar", args) ∈ spawns (trace s) →
  ∃ dest,
    args = ["-zcf"; dest; "-C"; path.dirname (blockExportPath_of w flags); "blocks"]
    ∧ path.basename dest = snapshotFileName_of (timestamp_of w)
    ∧ clock_reads (trace s) = [timestamp_of w].
Proof.
  intros H Hin.
  assert (Hargs : tar_args w flags =
            ["-zcf"; snapshotPath_of w flags; "-C";
             path.dirname (blockExportPath_of w flags); "blocks"]).
  { unfold tar_args, zipDir_args. cbn [fold_left]. do 4 f_equal.
    unfold blockExportPath_of. by rewrite path_facts.basename_join. }
  assert (Hbase : path.basename (snapshotPath_of w flags)
                  = snapshotFileName_of (timestamp_of w)).
  { unfold snapshotPath_of.
    by rewrite path_facts.basename_join by apply path_facts.plain_snapshotFileName. }
  run_cases H.
  all: revert Hin; stages; intros Hin; trace_crush.
  all: exists (snapshotPath_of w flags); rewrite <- Hargs.
  all: split; [congruence|]; split; [done|].
  all: stages; done.
Qed.

Lemma archive_member_is_blocks_witness :
  ∃ dest,
    tar_args fair_world without_bucket = ["-zcf"; dest; "-C"; "/tmp/snap"; "blocks"]
    ∧ path.basename dest = "ironfish_snapshot_1667343600123.tar.gz".
Proof.
  destruct (archive_member_is_blocks fair_world without_bucket _ _
              (tar_args fair_world without_bucket) (surjective_pairing _))
    as (dest & Hargs & Hbase & _).
  - apply (bool_decide_unpack _). vm_compute. exact I.
  - exists dest. split; [exact Hargs | exact Hbase].
Defined.

(** ** The arguments as typed *)

Lemma drop_while_head l c l' :
  path.drop_while is_space l = c :: l' → is_space c = false.
Proof.
  induction l as [|a l IH]; [done|]. cbn [path.drop_while].
  destruct (is_space a) eqn:E; [exact IH|]. by intros [= <- _].
Qed.

Lemma drop_while_id l :
  (∀ c l', l = c :: l' → is_space c = false) → path.drop_while is_space l = l.
Proof.
  destruct l as [|a l]; [done|]. intros H. cbn [path.drop_while].
  by rewrite (H a l eq_refl).
Qed.

Lemma drop_while_suffix l : ∃ k, l = k ++ path.drop_while is_space l.
Proof.
  induction l as [|a l [k IH]]; [by exists []|]. cbn [path.drop_while].
  destruct (is_space a).
  - exists (a :: k). cbn. by f_equal.
  - by exists [].
Qed.

Lemma trim_chars_idem l :
  let t := rev (path.drop_while is_space (rev (path.drop_while is_space l))) in
  rev (path.drop_while is_space (rev (path.drop_while is_space t))) = t.
Proof.
  intros t.
  assert (Ht : path.drop_while is_space t = t).
  { apply drop_while_id. intros c t' Et.
    destruct (drop_while_suffix (rev (path.drop_while is_space l))) as [k Ek].
    apply (f_equal (@rev _)) in Ek. rewrite rev_involutive, rev_app_distr in Ek.
    fold t in Ek. rewrite Et in Ek. cbn in Ek.
    by apply (drop_while_head l c (t' ++ rev k)). }
  rewrite Ht. unfold t at 1. rewrite rev_involutive.
  rewrite (drop_while_id (path.drop_while is_space _)); [done|].
  intros c l' E. by apply (drop_while_head _ _ _ E).
Qed.

Lemma trim_idem s : trim (trim s) = trim s.
Proof.
  unfold trim. rewrite path_facts.chars_unchars. f_equal. apply trim_chars_idem.
Qed.

Lemma or_string_empty o : or_string o EmptyString = default EmptyString o.
Proof. destruct o as [e|]; [|done]. cbn. unfold truthy_string. by case_bool_decide. Qed.




(** ** What is left behind *)

Lemma downloaded_keeps w flags p :
  is_Some (fs_init w !! p) → is_Some (downloaded w flags !! p).
Proof.
  intros H. unfold downloaded. rewrite foldl_block_store_lookup.
  by destruct (last_written _ _ _).
Qed.

Lemma downloaded_holds w flags m :
  m ∈ records_of w → written m = true →
  is_Some (downloaded w flags !! block_path (blockExportPath_of w flags) m).
Proof.
  intros Hin Hw. unfold downloaded. rewrite foldl_block_store_lookup.
  unfold last_written.
  destruct (last _) eqn:E; [by eexists|].
  apply last_None in E.
  assert (Hm : m ∈ filter (λ m', written m' = true
                    ∧ block_path (blockExportPath_of w flags) m'
                      = block_path (blockExportPath_of w flags) m) (records_of w)).
  { by apply list_elem_of_filter. }
  rewrite E in Hm. by apply not_elem_of_nil in Hm.
Qed.

(** The command removes nothing.  When the child processes leave the
    existing files in place, a successful run ends with every file it
    found, the file of every record it wrote, the archive and, with a
    bucket, the manifest still on disk: the export directory, also a
    temporary one, is not cleaned up. *)
Theorem nothing_is_cleaned_up w flags s :
  run w flags = (Done tt, s) →
  (∀ cmd args f p, is_Some (f !! p) → is_Some (child_effect w cmd args f !! p)) →
  (∀ p, is_Some (fs_init w !! p) → is_Some (fs s !! p))
  ∧ (∀ m, m ∈ records_of w → written m = true →
          is_Some (fs s !! block_path (blockExportPath_of w flags) m))
  ∧ is_Some (fs s !! snapshotPath_of w flags)
  ∧ (truthy_string (bucket_of w flags) = true →
     is_Some (fs s !! manifestPath_of w flags)).
Proof.
  intros H Hkeep.
  rewrite (run_final_fs _ _ _ H).
  assert (Hfinal : ∀ p, is_Some (archived w flags !! p) → is_Some (final_fs w flags !! p)).
  { intros p Hp. unfold final_fs. destruct (truthy_string _); [|done].
    apply Hkeep. destruct (decide (manifestPath_of w flags = p)) as [<-|Hne].
    - rewrite lookup_insert_eq. by eexists.
    - rewrite lookup_insert_ne by done. by apply Hkeep. }
  assert (Harchive : is_Some (archived w flags !! snapshotPath_of w flags)).
  { pose proof (run_sound _ _ _ _ H) as HR. by inversion HR. }
  split; [|split; [|split]].
  - intros p Hp. by apply Hfinal, Hkeep, downloaded_keeps.
  - intros m Hin Hw. by apply Hfinal, Hkeep, downloaded_holds.
  - by apply Hfinal.
  - intros Hb. unfold final_fs. rewrite Hb. apply Hkeep.
    rewrite lookup_insert_eq. by eexists.
Qed.

Lemma nothing_is_cleaned_up_witness :
  is_Some (fs (run fair_world with_bucket).2 !! "/tmp/snap/blocks/11").
Proof.
  assert (E1 : (run fair_world with_bucket).1 = Done tt) by (vm_compute; reflexivity).
  pose proof (surjective_pairing (run fair_world with_bucket)) as E.
  rewrite E1 in E.
  destruct (nothing_is_cleaned_up fair_world with_bucket _ E) as (_ & Hb & _).
  - intros cmd args f p Hp. cbn [fair_world sample_world child_effect].
    unfold sample_effect. case_bool_decide; [|done].
    apply lookup_insert_is_Some'. by right.
  - apply (Hb (block 11 "B")); [|reflexivity].
    apply list_elem_of_further, list_elem_of_here.
Defined.

(** * Sample evaluations *)

Example join_absolute : path.join "/tmp/x" "blocks" = "/tmp/x/blocks".
Proof. reflexivity. Qed.
Example join_normalizes : path.join "/tmp//x/" "blocks" = "/tmp/x/blocks".
Proof. reflexivity. Qed.
Example join_root : path.join "/" "blocks" = "/blocks".
Proof. reflexivity. Qed.
Example join_dotdot : path.join "/a/b/.." "c" = "/a/c".
Proof. reflexivity. Qed.
Example join_above : path.join "a/../.." "blocks" = "../blocks".
Proof. reflexivity. Qed.
Example basename_trailing : path.basename "/tmp/x/blocks/" = "blocks".
Proof. reflexivity. Qed.
Example dirname_absolute : path.dirname "/tmp/x/blocks" = "/tmp/x".
Proof. reflexivity. Qed.
Example dirname_double : path.dirname "a//b" = "a/".
Proof. reflexivity. Qed.
Example dirname_root : path.dirname "/blocks" = "/".
Proof. reflexivity. Qed.
Example dirname_relative : path.dirname "blocks" = ".".
Proof. reflexivity. Qed.
Example toString_negative : Number_toString (-12) = "-12".
Proof. reflexivity. Qed.
Example toString_zero : Number_toString 0 = "0".
Proof. reflexivity. Qed.
Example trim_both : trim "  a b  " = "a b".
Proof. reflexivity. Qed.

Example sha256_abc :
  toString_hex (sha256.digest (bytes_of_string "abc")) =
  "ba7816bf8f01cfea414140de5dae2223b00361a396177a9cb410ff61f20015ad".
Proof. vm_compute. reflexivity. Qed.
Example sha256_empty :
  toString_hex (sha256.digest []) =
  "e3b0c44298fc1c149afbf4c8996fb92427ae41e4649b934ca495991b7852b855".
Proof. vm_compute. reflexivity. Qed.
Example sha256_two_blocks :
  toString_hex
    (sha256.digest
       (bytes_of_string "abcdbcdecdefdefgefghfghighijhijkijkljklmklmnlmnomnopnopq")) =
  "248d6a61d20638b8e5c026930c3e6039a33ce45964ff2167f6ecedd419db06c1".
Proof. vm_compute. reflexivity. Qed.

Example toISOString_epoch : Date.toISOString 0 = "1970-01-01T00:00:00.000Z".
Proof. reflexivity. Qed.
Example toISOString_2022 : Date.toISOString 1667343600123 = "2022-11-01T23:00:00.123Z".
Proof. reflexivity. Qed.
Example toISOString_leap_day : Date.toISOString 1709251199999 = "2024-02-29T23:59:59.999Z".
Proof. reflexivity. Qed.
Example toISOString_before_epoch : Date.toISOString (-1) = "1969-12-31T23:59:59.999Z".
Proof. reflexivity. Qed.
Example toISOString_year_10000 :
  Date.toISOString 253402300800000 = "+010000-01-01T00:00:00.000Z".
Proof. reflexivity. Qed.

Example zipDir_args_excludes :
  zipDir_args "/tmp/snap/blocks" "/tmp/snap/a.tar.gz" ["x"; "y"] =
  ["--exclude"; "y"; "--exclude"; "x"; "-zcf"; "/tmp/snap/a.tar.gz";
   "-C"; "/tmp/snap"; "blocks"].
Proof. reflexivity. Qed.

(** The scenario of the three blocks 10..12, with a bucket. *)
Example three_blocks_published :
  (run fair_world with_bucket).1 = Done tt
  ∧ trace (run fair_world with_bucket).2 =
      [Mkdir "/tmp/snap/blocks"; ConnectRpc; SnapshotChainStream 1000;
       Receive bounds_10_12; ProgressStart 3 0;
       Receive (block 10 "A");
       WriteFile "/tmp/snap/blocks/10" (bytes_of_string "A"); ProgressUpdate 10;
       Receive (block 11 "B");
       WriteFile "/tmp/snap/blocks/11" (bytes_of_string "B"); ProgressUpdate 11;
       Receive (block 12 "C");
       WriteFile "/tmp/snap/blocks/12" (bytes_of_string "C"); ProgressUpdate 12;
       ProgressStop; DateNow 1667343600123;
       Spawn "tar"
         ["-zcf"; "/tmp/snap/ironfish_snapshot_1667343600123.tar.gz";
          "-C"; "/tmp/snap"; "blocks"];
       Stat "/tmp/snap/ironfish_snapshot_1667343600123.tar.gz";
       Open "/tmp/snap/ironfish_snapshot_1667343600123.tar.gz";
       Digest "ba7816bf8f01cfea414140de5dae2223b00361a396177a9cb410ff61f20015ad";
       Spawn "curl"
         ["-X"; "PUT"; "-T"; "/tmp/snap/ironfish_snapshot_1667343600123.tar.gz";
          "-H"; "Host: bucket.example";
          "-H"; "Date: 2022-11-01T23:00:00.124Z";
          "-H"; "Content-Type: application/x-compressed-tar";
          "-H"; "x-amz-acl: bucket-owner-full-control";
          "https://bucket.example/ironfish_snapshot_1667343600123.tar.gz"];
       WriteFile "/tmp/snap/manifest.json"
         (bytes_of_string
            (JSON_stringify
               {| block_height := 12;
                  checksum :=
                    "ba7816bf8f01cfea414140de5dae2223b00361a396177a9cb410ff61f20015ad";
                  file_name := "ironfish_snapshot_1667343600123.tar.gz";
                  file_size := 3;
                  timestamp := 1667343600123 |}));
       Spawn "curl"
         ["-X"; "PUT"; "-T"; "/tmp/snap/manifest.json";
          "-H"; "Host: bucket.example";
          "-H"; "Date: 2022-11-01T23:00:00.125Z";
          "-H"; "Content-Type: application/json";
          "-H"; "x-amz-acl: bucket-owner-full-control";
          "https://bucket.example/manifest.json"]].
Proof. split; vm_compute; reflexivity. Qed.

Example manifest_json :
  JSON_stringify
    {| block_height := 12; checksum := "ab"; file_name := "a.tar.gz";
       file_size := 3; timestamp := 5 |}
  = String.concat (String (ascii_of_N 34) EmptyString)
      ["{"; "block_height"; ":12,"; "checksum"; ":"; "ab"; ","; "file_name"; ":";
       "a.tar.gz"; ","; "file_size"; ":3,"; "timestamp"; ":5}"].
Proof. reflexivity. Qed.
